(** * extract_structured.py: the extraction-normalisation filter

    A shallow embedding of [scripts/extract_structured.py] and the proofs of
    the properties its specification states about it.

    Python values are modelled as follows.
    - [str] is a sequence of Unicode code points, [list N]; string
      comparison is the lexicographic order on code points (stdpp's
      [lexico]), slicing counts code points.
    - an attribute that may be absent is an [option]; a value that may be
      [None] instead of a string is a [pyval].
    - a function that can raise returns a [res]; the driver runs in a small
      monad over the process' streams with [sys.exit] as early exit.
    - what the interpreter brings along is data of the model: the character
      database that [str.title] reads is a [unicode_data], the texts that the
      encoding of [sys.stdout] accepts are a field of the [world]. *)

From Stdlib Require Import Strings.String Strings.Ascii.
From stdpp Require Import gmap list sorting lexico pretty.

Local Open Scope N_scope.

(** ** Strings *)

Abbreviation str := (list N).

(** A literal of the source, as code points. *)
Definition lit (s : string) : str := map N_of_ascii (list_ascii_of_string s).

Definition nl : str := [10].

(** [len s] is Python's [len(s)]. *)
Definition len (s : str) : N := N.of_nat (length s).

(** Python's [str.isspace] on one code point: the characters of bidirectional
    type WS, B or S, or of category Zs. This is the whole list. *)
Definition isspace (c : N) : bool :=
  ((9 <=? c) && (c <=? 13)) || ((28 <=? c) && (c <=? 32))
  || (c =? 133) || (c =? 160) || (c =? 5760)
  || ((8192 <=? c) && (c <=? 8202))
  || (c =? 8232) || (c =? 8233) || (c =? 8239) || (c =? 8287) || (c =? 12288).

Fixpoint lstrip (s : str) : str :=
  match s with
  | [] => []
  | c :: s' => if isspace c then lstrip s' else s
  end.

Definition rstrip (s : str) : str := reverse (lstrip (reverse s)).

(** [s.strip()] *)
Definition strip (s : str) : str := rstrip (lstrip s).

(** [sep.join(l)] *)
Fixpoint join (sep : str) (l : list str) : str :=
  match l with
  | [] => []
  | [x] => x
  | x :: l' => x ++ sep ++ join sep l'
  end.

(** [s[:n]] for a bound [n >= 0] *)
Fixpoint slice_to (n : N) (s : str) : str :=
  match s with
  | [] => []
  | c :: s' => if n =? 0 then [] else c :: slice_to (N.pred n) s'
  end.

(** [s.replace(a, b)] for one-character [a] and [b] *)
Definition replace_char (a b : N) (s : str) : str :=
  map (λ c, if c =? a then b else c) s.

(** ** Values, exceptions *)

(** The value of an attribute the engine filled in: a string, as the engine's
    data classes declare, or [None]. *)
Inductive pyval : Type :=
  | PyNone
  | PyStr (s : str).

Inductive exn : Type :=
  | AttributeError
  | TypeError
  | UnicodeEncodeError
  | KeyboardInterrupt.

Inductive res (A : Type) : Type :=
  | Ok (a : A)
  | Raise (e : exn).
Arguments Ok {A} a.
Arguments Raise {A} e.

Global Instance res_ret : MRet res := λ A a, Ok a.
Global Instance res_bind : MBind res := λ A B f m,
  match m with
  | Ok a => f a
  | Raise e => Raise e
  end.

Global Instance pyval_eq_dec : EqDecision pyval.
Proof. solve_decision. Defined.

Global Instance pyval_countable : Countable pyval.
Proof.
  refine (inj_countable'
    (λ v, match v with PyNone => None | PyStr s => Some s end)
    (λ o, match o with None => PyNone | Some s => PyStr s end) _).
  by intros [].
Defined.

(** The order of [<] on dictionary keys. [None < s] is a [TypeError] in
    Python (see [keys_comparable]); placing [None] first only makes the
    relation total. *)
Global Instance pyval_lexico : Lexico pyval := λ a b,
  match a, b with
  | PyNone, PyStr _ => True
  | PyStr s, PyStr t => lexico s t
  | _, _ => False
  end.

Global Instance pyval_lexico_po : StrictOrder (@lexico pyval _).
Proof.
  split.
  - intros [|s]; [by intros ? |]. apply (irreflexivity (@lexico str _)).
  - intros [|s1] [|s2] [|s3]; try done. apply (transitivity (R:=@lexico str _)).
Qed.

Global Instance pyval_lexico_trichotomy : TrichotomyT (@lexico pyval _).
Proof.
  red; refine (λ a b,
    match a, b with
    | PyNone, PyNone => inleft (right _)
    | PyNone, PyStr _ => inleft (left _)
    | PyStr _, PyNone => inright _
    | PyStr s, PyStr t => cast_trichotomy (trichotomyT lexico s t)
    end); (done || congruence).
Defined.

(** [a <= b] as Python's [sorted] sees it: [not (b < a)]. *)
Definition lexico_le `{Lexico A} : relation A := λ a b, ¬ lexico b a.

Global Instance lexico_le_dec
    `{Lexico A, !StrictOrder (@lexico A _), !TrichotomyT (@lexico A _)}
    (a b : A) : Decision (lexico_le a b).
Proof. unfold lexico_le. apply _. Defined.

(** ** The Unicode character data

    [str.title] reads the character database of the interpreter: which
    characters are cased, which are case-ignorable, and the full title-case
    and lower-case mappings, which may give several characters for one. The
    database is not part of the program: the model takes it as data, and what
    is proved of the program is proved for every database. *)
Record unicode_data : Type := UnicodeData {
  is_cased : N → bool;
  is_case_ignorable : N → bool;
  to_title_full : N → str;
  to_lower_full : N → str;
}.

(** The UTF-8 codec with the strict error handler, the usual setting of
    [sys.stdout]: it encodes every text that holds no surrogate. *)
Definition utf8_strict (s : str) : bool :=
  forallb (λ c, negb ((55296 <=? c) && (c <=? 57343))) s.

Definition ascii_letter (c : N) : bool :=
  ((65 <=? c) && (c <=? 90)) || ((97 <=? c) && (c <=? 122)).

Definition ascii_title (c : N) : N :=
  if (97 <=? c) && (c <=? 122) then c - 32 else c.

Definition ascii_lower (c : N) : N :=
  if (65 <=? c) && (c <=? 90) then c + 32 else c.

(** What the database says of the characters below 128: the letters are the
    cased ones and are mapped to their upper and lower case forms;
    apostrophe, full stop, colon, circumflex and grave accent are
    case-ignorable. This table knows no cased character from 128 on: it is
    the database for running the model on ASCII text, and is wrong on a text
    with other letters. *)
Definition ascii_only : unicode_data :=
  {| is_cased := ascii_letter;
     is_case_ignorable := λ c,
       (c =? 39) || (c =? 46) || (c =? 58) || (c =? 94) || (c =? 96);
     to_title_full := λ c, [ascii_title c];
     to_lower_full := λ c, [ascii_lower c] |}.

(** A database that says of the characters below 128 what Unicode says. *)
Definition ascii_faithful (ucd : unicode_data) : Prop :=
  ∀ c, c < 128 →
    is_cased ucd c = ascii_letter c
    ∧ to_title_full ucd c = [ascii_title c]
    ∧ to_lower_full ucd c = [ascii_lower c].

(** * export_embedding_model.py: the export script

    The script loads a tokenizer and a model, writes the vocabulary file,
    traces the model, converts it and saves it. The libraries it drives are
    outside the repository: a run is modelled by the sequence of what the
    script asks of them and of the system, on a world that says what the
    tokenizer's vocabulary is and how tracing and conversion end. Calls
    outside a [try] block ([from_pretrained], the tokenizer, the file
    operations, [save]) are taken to return. The pooling in [forward] is
    tensor arithmetic on floats and is not modelled. *)

Module export_embedding_model.

Definition MODEL_NAME : str := lit "sentence-transformers/all-MiniLM-L6-v2".
Definition MAX_LENGTH : Z := 256.

(** *** os.path, as posixpath has it *)

Definition sep : N := 47.

Fixpoint drop_while (f : N → bool) (s : str) : str :=
  match s with
  | [] => []
  | c :: s' => if f c then drop_while f s' else s
  end.

(** [os.path.dirname]: the part up to the last separator, without its
    trailing separators unless it is made of separators only. *)
Definition dirname (p : str) : str :=
  let head := reverse (drop_while (λ c, negb (c =? sep)) (reverse p)) in
  match head with
  | [] => head
  | _ :: _ =>
      if forallb (λ c, c =? sep) head then head
      else reverse (drop_while (λ c, c =? sep) (reverse head))
  end.

Definition startswith_sep (b : str) : bool :=
  match b with
  | c :: _ => c =? sep
  | [] => false
  end.

Definition endswith_sep (path : str) : bool :=
  match last path with
  | Some c => c =? sep
  | None => false
  end.

(** One turn of the loop of [os.path.join]. *)
Definition join_step (path b : str) : str :=
  if startswith_sep b then b
  else if bool_decide (path = []) || endswith_sep path then path ++ b
  else path ++ [sep] ++ b.

(** [os.path.join(a, *p)], the [*p] as a list *)
Definition path_join (a : str) (p : list str) : str := foldl join_step a p.

(** The constants of the module, from [file], the value of
    [os.path.abspath(__file__)]. *)
Definition REPO_ROOT (file : str) : str := dirname (dirname file).

Definition OUTPUT_MLPACKAGE (file : str) : str :=
  path_join (REPO_ROOT file) [lit "KnowledgeCache"; lit "EmbeddingModel.mlpackage"].

Definition OUTPUT_MLMODEL (file : str) : str :=
  path_join (REPO_ROOT file) [lit "KnowledgeCache"; lit "EmbeddingModel.mlmodel"].

Definition OUTPUT_VOCAB (file : str) : str :=
  path_join (REPO_ROOT file)
    [lit "KnowledgeCache"; lit "Resources"; lit "minilm_vocab.txt"].

(** *** The run as a sequence of events *)

(** [ct.TensorType(name=.., shape=.., dtype=..)] *)
Record tensor_type : Type := TensorType {
  name : str;
  shape : Z * Z;
  dtype : str;
}.

Inductive event : Type :=
  | PrintLine (line : str)
  | TokenizerFromPretrained (name : str)
  | ModelFromPretrained (name : str)
  | Tokenize (text : str) (padding : str) (truncation : bool)
      (max_length : Z) (return_tensors : str)
  | Makedirs (path : str)
  | WriteFile (path : str) (content : str)
  | JitTrace
  | Convert (inputs : list tensor_type) (convert_to : str)
      (compute_units : str) (minimum_deployment_target : str)
  | Save (path : str).

(** How a call inside a [try] block ends: it returns, or raises an exception
    [e] with [str(e) = msg]. *)
Inductive call (A : Type) : Type :=
  | Returned (a : A)
  | Raised (msg : str).
Arguments Returned {A} a.
Arguments Raised {A} msg.

(** [vocab] is the dictionary of [tokenizer.get_vocab()], its items in the
    order of the dictionary; [convert] returns the names of the outputs in
    the converted model's description. *)
Record world : Type := World {
  file : str;
  vocab : list (str * Z);
  trace : call ();
  convert : call (list str);
}.

(** A computation appends events and goes on with a value, or exits. *)
Definition script (A : Type) : Type :=
  list event → (A + Z) * list event.

#[local] Instance script_ret : MRet script := λ A a evs, (inl a, evs).
#[local] Instance script_bind : MBind script := λ A B f m evs,
  match m evs with
  | (inl a, evs') => f a evs'
  | (inr code, evs') => (inr code, evs')
  end.

Definition emit (e : event) : script () := λ evs, (inl (), evs ++ [e]).

Definition print (line : str) : script () := emit (PrintLine line).

Definition sys_exit {A} (code : Z) : script A := λ evs, (inr code, evs).

(** *** export_vocab *)

Fixpoint insert_by_id (x : str * Z) (l : list (str * Z)) : list (str * Z) :=
  match l with
  | [] => [x]
  | y :: l' => if (x.2 <=? y.2)%Z then x :: l else y :: insert_by_id x l'
  end.

(** [sorted(items, key=lambda x: x[1])]: a stable sort on the ids, items
    with the same id staying in the order they had. *)
Definition sorted_by_id (items : list (str * Z)) : list (str * Z) :=
  foldr insert_by_id [] items.

(** What the [write] calls of the loop put in the file. *)
Definition vocab_text (sorted_items : list (str * Z)) : str :=
  concat ((λ item, item.1 ++ nl) <$> sorted_items).

Definition export_vocab (file : str) (vocab : list (str * Z)) : script () :=
  let sorted_items := sorted_by_id vocab in
  emit (Makedirs (dirname (OUTPUT_VOCAB file)));;
  emit (WriteFile (OUTPUT_VOCAB file) (vocab_text sorted_items));;
  print ([9989] ++ lit " Saved vocabulary ("
         ++ lit (pretty (N.of_nat (length sorted_items)))
         ++ lit " tokens) to " ++ OUTPUT_VOCAB file).

(** *** main *)

Definition main (w : world) : script () :=
  print (lit "Loading tokenizer and model...");;
  emit (TokenizerFromPretrained MODEL_NAME);;
  emit (ModelFromPretrained MODEL_NAME);;
  emit (Tokenize (lit "This is a test sentence.") (lit "max_length") true
          MAX_LENGTH (lit "pt"));;
  export_vocab (file w) (vocab w);;
  print (lit "Tracing model...");;
  emit JitTrace;;
  match trace w with
  | Raised e =>
      print ([10060] ++ lit " JIT trace failed: " ++ e);;
      print (lit "Try with Python 3.9" ++ [8211] ++ lit "3.11 and torch 2.0"
             ++ [8211] ++ lit "2.2.");;
      sys_exit 1
  | Returned _ =>
      print (lit "Converting to Core ML (neuralnetwork = single file with embedded weights)...");;
      emit (Convert [TensorType (lit "input_ids") (1, MAX_LENGTH)%Z (lit "int32");
                     TensorType (lit "attention_mask") (1, MAX_LENGTH)%Z
                       (lit "int32")]
                    (lit "neuralnetwork") (lit "ALL") (lit "macOS11"));;
      match convert w with
      | Raised e =>
          print ([10060] ++ lit " Core ML conversion failed: " ++ e);;
          print (lit "Use Python 3.9" ++ [8211]
                 ++ lit "3.11 and: pip install torch transformers coremltools numpy");;
          print (lit "Alternatively, use a pre-converted EmbeddingModel.mlmodel from Hugging Face.");;
          sys_exit 1
      | Returned output =>
          emit (Makedirs (dirname (OUTPUT_MLMODEL (file w))));;
          emit (Save (OUTPUT_MLMODEL (file w)));;
          let out_name :=
            match output with
            | first :: _ => first
            | [] => lit "?"
            end in
          print ([9989] ++ lit " Saved Core ML model to "
                 ++ OUTPUT_MLMODEL (file w)
                 ++ lit " (output name: " ++ out_name ++ lit ")");;
          print (lit "Add EmbeddingModel.mlmodel to your Xcode target (or use the post-build copy script).")
      end
  end.

(** One run of the script: its exit status and what it did. *)
Definition run (w : world) : Z * list event :=
  match main w [] with
  | (inl _, evs) => (0%Z, evs)
  | (inr code, evs) => (code, evs)
  end.

(** What every run starts with, up to the vocabulary file. *)
Definition opening (w : world) : list event :=
  [PrintLine (lit "Loading tokenizer and model...");
   TokenizerFromPretrained MODEL_NAME;
   ModelFromPretrained MODEL_NAME;
   Tokenize (lit "This is a test sentence.") (lit "max_length") true
     MAX_LENGTH (lit "pt");
   Makedirs (dirname (OUTPUT_VOCAB (file w)));
   WriteFile (OUTPUT_VOCAB (file w)) (vocab_text (sorted_by_id (vocab w)))].

(** The stretches that follow, as [main] lays them out. *)
Definition tracing (w : world) : list event :=
  [PrintLine ([9989] ++ lit " Saved vocabulary ("
          ++ lit (pretty (N.of_nat (length (sorted_by_id (vocab w)))))
          ++ lit " tokens) to " ++ OUTPUT_VOCAB (file w));
   PrintLine (lit "Tracing model...");
   JitTrace].

Definition trace_failure (e : str) : list event :=
  [PrintLine ([10060] ++ lit " JIT trace failed: " ++ e);
   PrintLine (lit "Try with Python 3.9" ++ [8211] ++ lit "3.11 and torch 2.0"
          ++ [8211] ++ lit "2.2.")].

Definition converting : list event :=
  [PrintLine (lit "Converting to Core ML (neuralnetwork = single file with embedded weights)...");
   Convert [TensorType (lit "input_ids") (1, MAX_LENGTH)%Z (lit "int32");
            TensorType (lit "attention_mask") (1, MAX_LENGTH)%Z (lit "int32")]
           (lit "neuralnetwork") (lit "ALL") (lit "macOS11")].

Definition conversion_failure (e : str) : list event :=
  [PrintLine ([10060] ++ lit " Core ML conversion failed: " ++ e);
   PrintLine (lit "Use Python 3.9" ++ [8211]
          ++ lit "3.11 and: pip install torch transformers coremltools numpy");
   PrintLine (lit "Alternatively, use a pre-converted EmbeddingModel.mlmodel from Hugging Face.")].

Definition saving (w : world) (output : list str) : list event :=
  [Makedirs (dirname (OUTPUT_MLMODEL (file w)));
   Save (OUTPUT_MLMODEL (file w));
   PrintLine ([9989] ++ lit " Saved Core ML model to " ++ OUTPUT_MLMODEL (file w)
          ++ lit " (output name: " ++ default (lit "?") (head output)
          ++ lit ")");
   PrintLine (lit "Add EmbeddingModel.mlmodel to your Xcode target (or use the post-build copy script).")].

(** The paths the run writes to, in order. *)
Definition written (evs : list event) : list str :=
  omap (λ e, match e with
             | WriteFile path _ => Some path
             | Save path => Some path
             | _ => None
             end) evs.

End export_embedding_model.

(** * extract_structured.py, on a character database *)

Section model.
Context (ucd : unicode_data).

(** ** str.title

    As CPython's [do_title]: a character that follows a cased character is
    replaced by its lower-case mapping, any other by its title-case mapping.
    The lower-case mapping of capital sigma (931) depends on where it
    stands: final sigma (962) after a cased character and before no cased
    one, case-ignorable characters skipped on either side, and small sigma
    (963) elsewhere. [before] holds the characters already passed, the
    nearest first. *)
Fixpoint skip_ignorable (s : str) : str :=
  match s with
  | [] => []
  | c :: s' => if is_case_ignorable ucd c then skip_ignorable s' else s
  end.

Definition final_sigma (before after : str) : bool :=
  match skip_ignorable before with
  | [] => false
  | c :: _ =>
      is_cased ucd c
      && match skip_ignorable after with
         | [] => true
         | d :: _ => negb (is_cased ucd d)
         end
  end.

Definition lower (before : str) (c : N) (after : str) : str :=
  if c =? 931 then [if final_sigma before after then 962 else 963]
  else to_lower_full ucd c.

Fixpoint title_from (before : str) (previous_is_cased : bool) (s : str)
    : str :=
  match s with
  | [] => []
  | c :: s' =>
      (if previous_is_cased then lower before c s' else to_title_full ucd c)
        ++ title_from (c :: before) (is_cased ucd c) s'
  end.

Definition title (s : str) : str := title_from [] false s.

(** ** The engine's data *)

(** One extraction record as [flatten_extractions] sees it: the two
    attributes it reads, each possibly absent, and what [str(e)] gives. *)
Record extraction : Type := Extraction {
  extraction_class : option pyval;
  extraction_text : option pyval;
  to_str : str;
}.

(** The object handed to [flatten_extractions]: one without an
    [extractions] attribute, or a document whose [extractions] is [None] or
    a list of records. *)
Inductive document : Type :=
  | NoExtractionsAttr
  | AnnotatedDocument (extractions : option (list extraction)).

(** ** flatten_extractions *)

(** [getattr(e, name, default)] *)
Definition getattr (field : option pyval) (dflt : pyval) : pyval :=
  default dflt field.

(** [v.strip()]: only a string has the method. *)
Definition py_strip (v : pyval) : res str :=
  match v with
  | PyStr s => Ok (strip s)
  | PyNone => Raise AttributeError
  end.

(** [by_class.setdefault(cls, []).append(text)] *)
Definition setdefault_append (cls : pyval) (text : str)
    (by_class : gmap pyval (list str)) : gmap pyval (list str) :=
  <[cls := default [] (by_class !! cls) ++ [text]]> by_class.

(** One turn of the grouping loop. *)
Definition group_step (by_class : gmap pyval (list str)) (e : extraction)
    : res (gmap pyval (list str)) :=
  let cls := getattr (extraction_class e) (PyStr (lit "fact")) in
  text ← py_strip (getattr (extraction_text e) (PyStr (to_str e)));
  match text with
  | [] => Ok by_class
  | _ :: _ => Ok (setdefault_append cls text by_class)
  end.

Fixpoint group_loop (by_class : gmap pyval (list str)) (es : list extraction)
    : res (gmap pyval (list str)) :=
  match es with
  | [] => Ok by_class
  | e :: es' => by_class' ← group_step by_class e; group_loop by_class' es'
  end.

(** ["\n".join("- " + t for t in texts)] *)
Definition bullets (texts : list str) : str :=
  join nl (map (λ t, lit "- " ++ t) texts).

(** [by_class.get(key)], with [None] and the empty list both falsy. *)
Definition get_items (by_class : gmap pyval (list str)) (key : str)
    : list str :=
  default [] (by_class !! PyStr key).

(** The three [if by_class.get(...)] blocks. *)
Definition canonical_parts (by_class : gmap pyval (list str)) : list str :=
  (match get_items by_class (lit "summary") with
   | [] => []
   | ts => [lit "Summary:" ++ nl ++ join nl ts]
   end)
  ++ (match get_items by_class (lit "key_point") with
      | [] => []
      | ts => [lit "Key points:" ++ nl ++ bullets ts]
      end)
  ++ (match get_items by_class (lit "fact") with
      | [] => []
      | ts => [lit "Facts:" ++ nl ++ bullets ts]
      end).

Definition is_str (v : pyval) : bool :=
  match v with PyStr _ => true | PyNone => false end.

(** [<] between two keys raises [TypeError] unless both are strings; a list
    of one item is sorted without a comparison. *)
Definition keys_comparable (items : list (pyval * list str)) : bool :=
  forallb (λ kv, is_str kv.1) items || bool_decide (length items ≤ 1)%nat.

(** [sorted(by_class.items())]: the [(key, texts)] tuples in ascending order,
    a tuple being compared by its key first. *)
Definition sorted_items (by_class : gmap pyval (list str))
    : res (list (pyval * list str)) :=
  let items := map_to_list by_class in
  if keys_comparable items then Ok (merge_sort lexico_le items)
  else Raise TypeError.

Definition is_canonical (cls : pyval) : bool :=
  bool_decide (cls = PyStr (lit "summary")
               ∨ cls = PyStr (lit "key_point")
               ∨ cls = PyStr (lit "fact")).

(** [f"{cls.replace('_', ' ').title()}:\n"] without the newline *)
Definition header (cls : str) : str :=
  title (replace_char 95 32 cls) ++ lit ":".

(** The loop over the sorted items, appending to [parts]. *)
Fixpoint other_parts (parts : list str) (items : list (pyval * list str))
    : res (list str) :=
  match items with
  | [] => Ok parts
  | (cls, texts) :: items' =>
      if is_canonical cls then other_parts parts items'
      else
        match cls with
        | PyStr s =>
            other_parts (parts ++ [header s ++ nl ++ bullets texts]) items'
        | PyNone => Raise AttributeError
        end
  end.

Definition flatten_extractions (result : document) : res str :=
  match result with
  | NoExtractionsAttr => Ok []
  | AnnotatedDocument None => Ok []
  | AnnotatedDocument (Some []) => Ok []
  | AnnotatedDocument (Some es) =>
      by_class ← group_loop ∅ es;
      let parts := canonical_parts by_class in
      items ← sorted_items by_class;
      parts ← other_parts parts items;
      Ok (match parts with [] => [] | _ => join (nl ++ nl) parts end)
  end.

(** ** The backend selector *)

Definition LANGEXTRACT_API_KEY : str := lit "LANGEXTRACT_API_KEY".
Definition GOOGLE_API_KEY : str := lit "GOOGLE_API_KEY".

(** [a or b] on values that are [None] or a string: [a] when it is truthy
    (a non-empty string), [b] otherwise. *)
Definition py_or (a b : option str) : option str :=
  match a with
  | Some (_ :: _) => a
  | _ => b
  end.

(** [(os.environ.get(..) or os.environ.get(..) or "").strip()] *)
Definition __get_env_key (environ : gmap str str) : str :=
  match py_or (py_or (environ !! LANGEXTRACT_API_KEY)
                     (environ !! GOOGLE_API_KEY))
              (Some [])
  with
  | Some key => strip key
  | None => []
  end.

(** The worked example handed to the engine. *)
Record example_extraction : Type := ExampleExtraction {
  example_class : str;
  example_extraction_text : str;
  example_attributes : list (str * str);
}.

Record example_data : Type := ExampleData {
  example_text : str;
  example_extractions : list example_extraction;
}.

Definition prompt : str :=
  lit "Extract structured information from the following web page or document text."
  ++ nl ++
  lit "Use exact wording from the text where possible. Do not paraphrase heavily."
  ++ nl ++
  lit "Provide: a short summary, key points (bullets), and important facts or entities."
  ++ nl ++
  lit "Order extractions by appearance. Do not overlap or duplicate.".

Definition examples : list example_data :=
  [ ExampleData
      (lit "John is a Data Engineer at Acme. He works on Python and SQL. He has 3 years of experience.")
      [ ExampleExtraction (lit "summary")
          (lit "John is a Data Engineer at Acme with 3 years of experience.")
          [(lit "role", lit "Data Engineer"); (lit "company", lit "Acme")];
        ExampleExtraction (lit "key_point")
          (lit "Works on Python and SQL")
          [(lit "skills", lit "Python, SQL")];
        ExampleExtraction (lit "fact")
          (lit "3 years of experience")
          [(lit "metric", lit "experience")] ] ].

(** The keyword arguments of [lx.extract]; [None] is a key that is not in
    the dictionary. *)
Record extract_kwargs : Type := ExtractKwargs {
  text_or_documents : str;
  prompt_description : str;
  kw_examples : list example_data;
  model_id : str;
  model_url : option str;
  fence_output : option bool;
  use_schema_constraints : option bool;
}.

(** Lines 60 to 71 of [main]: the arguments of the call. *)
Definition build_kwargs (raw : str) (environ : gmap str str)
    : extract_kwargs :=
  let model_id := lit "gemini-2.5-flash" in
  let kwargs :=
    {| text_or_documents := slice_to 200000 raw;
       prompt_description := prompt;
       kw_examples := examples;
       model_id := model_id;
       model_url := None;
       fence_output := None;
       use_schema_constraints := None |} in
  match __get_env_key environ with
  | [] =>
      {| text_or_documents := text_or_documents kwargs;
         prompt_description := prompt_description kwargs;
         kw_examples := kw_examples kwargs;
         model_id := lit "gemma2:2b";
         model_url := Some (lit "http://localhost:11434");
         fence_output := Some false;
         use_schema_constraints := Some false |}
  | _ :: _ => kwargs
  end.

(** ** The driver *)

(** What [lx.extract] gives back: one document or a list of them. *)
Inductive extract_result : Type :=
  | OneDocument (d : document)
  | DocumentList (ds : list document).

(** A call of the engine returns, or raises an exception [e] derived from
    [Exception], with [str(e) = msg], or raises one that is not and that
    [except Exception] lets through: [KeyboardInterrupt], or
    [SystemExit(code)]. *)
Inductive outcome : Type :=
  | Returns (r : extract_result)
  | Raises (msg : str)
  | Interrupted
  | Exits (code : Z).

(** The process' surroundings. [langextract] is [None] when the import
    fails; the engine answers its [n]-th call (counted from 0) on the given
    arguments, so that it may fail once and succeed when asked again.
    [stdout_encodes] says which texts the encoding of [sys.stdout], with its
    error handler, can encode. *)
Record world : Type := World {
  stdin : str;
  environ : gmap str str;
  langextract : option (nat → extract_kwargs → outcome);
  stdout_encodes : str → bool;
}.

(** What the process has done so far: what its streams accepted from the
    script, and the calls of the engine. *)
Record proc : Type := Proc {
  stdout : str;
  stderr : str;
  calls : list extract_kwargs;
}.

(** How the process ends: [sys.exit(code)], falling off the end of [main]
    being [Exited 0], or an exception nobody caught, on which the interpreter
    prints a traceback and exits with a status other than 0. [stdout] and
    [stderr] hold what the script itself wrote. *)
Inductive termination : Type :=
  | Exited (code : Z)
  | Uncaught (e : exn).

Definition io (A : Type) : Type := proc → (A + termination) * proc.

Global Instance io_ret : MRet io := λ A a p, (inl a, p).
Global Instance io_bind : MBind io := λ A B f m p,
  match m p with
  | (inl a, p') => f a p'
  | (inr t, p') => (inr t, p')
  end.

(** [sys.stdout.write(s)]: the text is encoded as a whole, and a text the
    stream cannot encode raises [UnicodeEncodeError] with nothing written. *)
Definition stdout_write (w : world) (s : str) : io () := λ p,
  if stdout_encodes w s
  then (inl (), {| stdout := stdout p ++ s; stderr := stderr p;
                   calls := calls p |})
  else (inr (Uncaught UnicodeEncodeError), p).

(** [sys.stderr.write(s)]: the error stream escapes what it cannot encode. *)
Definition stderr_write (s : str) : io () := λ p,
  (inl (), {| stdout := stdout p; stderr := stderr p ++ s; calls := calls p |}).

Definition sys_exit {A} (code : Z) : io A := λ p, (inr (Exited code), p).

(** A result of a pure function, its exception left uncaught. *)
Definition lift_res {A} (r : res A) : io A := λ p,
  match r with
  | Ok a => (inl a, p)
  | Raise e => (inr (Uncaught e), p)
  end.

(** The call of [lx.extract] on the keyword arguments, recorded in [calls]. *)
Definition lx_extract (lx : nat → extract_kwargs → outcome)
    (kwargs : extract_kwargs) : io outcome := λ p,
  (inl (lx (length (calls p)) kwargs),
   {| stdout := stdout p; stderr := stderr p; calls := calls p ++ [kwargs] |}).

(** [if isinstance(result, list) and result: result = result[0]]; an empty
    list stays what it is, an object without an [extractions] attribute. *)
Definition first_document (result : extract_result) : document :=
  match result with
  | OneDocument d => d
  | DocumentList (d :: _) => d
  | DocumentList [] => NoExtractionsAttr
  end.

Definition main (w : world) : io () :=
  let raw := stdin w in
  let raw := strip raw in
  match raw with
  | [] => stderr_write (lit "extract_structured: no input" ++ nl);; sys_exit 1
  | _ :: _ =>
  match langextract w with
  | None =>
      stderr_write (lit "extract_structured: langextract not installed (pip install -r requirements-langextract.txt)" ++ nl);;
      sys_exit 1
  | Some lx =>
      let extract_kwargs := build_kwargs raw (environ w) in
      r ← lx_extract lx extract_kwargs;
      match r with
      | Raises e =>
          stderr_write (lit "extract_structured: extraction failed: " ++ e ++ nl);;
          sys_exit 1
      | Interrupted => lift_res (Raise KeyboardInterrupt)
      | Exits code => sys_exit code
      | Returns result =>
          let result := first_document result in
          out ← lift_res (flatten_extractions result);
          match strip out with
          | [] => stdout_write w (slice_to 50000 raw)
          | _ :: _ => stdout_write w out
          end
      end
  end
  end.

(** One run of the script from a fresh process. *)
Definition run (w : world) : termination * proc :=
  match main w (Proc [] [] []) with
  | (inl _, p) => (Exited 0, p)
  | (inr t, p) => (t, p)
  end.

(** ** The normaliser as the specification words it

    These definitions follow the specification's algorithm (its section 4.3),
    not the code: they are defined on the records alone, with no dictionary.
    A record has a label and a trimmed text, the group of a label is a
    filter of the input, and the sections are laid out in the order the
    specification gives. [flatten_extractions_normalize] below relates the
    code to them. *)

Definition well_typed_field (field : option pyval) : bool :=
  match field with
  | Some PyNone => false
  | _ => true
  end.

(** Each of the two attributes is absent or a string. *)
Definition well_typed (e : extraction) : bool :=
  well_typed_field (extraction_class e) && well_typed_field (extraction_text e).

Definition well_typed_document (d : document) : bool :=
  match d with
  | AnnotatedDocument (Some es) => forallb well_typed es
  | _ => true
  end.

Definition label_of (e : extraction) : str :=
  match extraction_class e with
  | Some (PyStr s) => s
  | _ => lit "fact"
  end.

Definition text_of (e : extraction) : str :=
  match extraction_text e with
  | Some (PyStr s) => strip s
  | _ => strip (to_str e)
  end.

(** The group of label [c]: the non-empty trimmed texts of the records
    labelled [c], in the order of the input. *)
Definition group_of (c : str) (es : list extraction) : list str :=
  filter (λ t, t ≠ []) (text_of <$> filter (λ e, label_of e = c) es).

Definition canonical : list str :=
  [lit "summary"; lit "key_point"; lit "fact"].

(** The labels that have an item, each once. *)
Definition present_labels (es : list extraction) : list str :=
  remove_dups (label_of <$> filter (λ e, text_of e ≠ []) es).

Definition extra_labels (es : list extraction) : list str :=
  merge_sort lexico_le (filter (λ c, c ∉ canonical) (present_labels es)).

Definition section_order (es : list extraction) : list str :=
  filter (λ c, group_of c es ≠ []) canonical ++ extra_labels es.

(** Title-casing, position by position. The character at position [i]
    follows a cased one when the character before it is cased. It is then
    replaced by its lower-case mapping (for capital sigma, by final or small
    sigma according to its surroundings), and by its title-case mapping
    otherwise. *)
Definition follows_cased (s : str) (i : nat) : bool :=
  match i with
  | O => false
  | S j => from_option (is_cased ucd) false (s !! j)
  end.

Definition title_char (s : str) (i : nat) (c : N) : str :=
  if follows_cased s i then
    if c =? 931
    then [if final_sigma (reverse (take i s)) (drop (S i) s) then 962 else 963]
    else to_lower_full ucd c
  else to_title_full ucd c.

Definition title_case (s : str) : str := mjoin (imap (title_char s) s).

Definition section_title (c : str) : str :=
  if decide (c = lit "summary") then lit "Summary"
  else if decide (c = lit "key_point") then lit "Key points"
  else if decide (c = lit "fact") then lit "Facts"
  else title_case (replace_char 95 32 c).

Definition section_lines (c : str) (texts : list str) : list str :=
  if decide (c = lit "summary") then texts
  else (λ t, lit "- " ++ t) <$> texts.

Definition section_text (es : list extraction) (c : str) : str :=
  section_title c ++ lit ":" ++ nl ++ join nl (section_lines c (group_of c es)).

Definition normalize (es : list extraction) : str :=
  join (nl ++ nl) (section_text es <$> section_order es).

(** ** Names used in the statements *)

(** What the loop has put under a key after more texts arrived for it. *)
Definition extend (old : option (list str)) (texts : list str)
    : option (list str) :=
  match texts with
  | [] => old
  | _ :: _ => Some (default [] old ++ texts)
  end.

(** The dictionary item of a label. *)
Definition item_of (es : list extraction) (c : str) : pyval * list str :=
  (PyStr c, group_of c es).

Definition no_input_message : str := lit "extract_structured: no input" ++ nl.

Definition not_installed_message : str :=
  lit "extract_structured: langextract not installed (pip install -r requirements-langextract.txt)" ++ nl.

Definition failed_message (msg : str) : str :=
  lit "extract_structured: extraction failed: " ++ msg ++ nl.

Definition hosted_kwargs (raw : str) : extract_kwargs :=
  {| text_or_documents := slice_to 200000 raw;
     prompt_description := prompt;
     kw_examples := examples;
     model_id := lit "gemini-2.5-flash";
     model_url := None;
     fence_output := None;
     use_schema_constraints := None |}.

Definition local_kwargs (raw : str) : extract_kwargs :=
  {| text_or_documents := slice_to 200000 raw;
     prompt_description := prompt;
     kw_examples := examples;
     model_id := lit "gemma2:2b";
     model_url := Some (lit "http://localhost:11434");
     fence_output := Some false;
     use_schema_constraints := Some false |}.

(** What the driver hands to [sys.stdout.write] when normalisation gave
    [out] on the stripped input [raw]. *)
Definition output_text (raw out : str) : str :=
  match strip out with
  | [] => slice_to 50000 raw
  | _ :: _ => out
  end.

(** The end of a run that hands [text] to [sys.stdout.write] after the call
    [kwargs]. *)
Definition written_or_refused (w : world) (kwargs : extract_kwargs)
    (text : str) : termination * proc :=
  if stdout_encodes w text then (Exited 0, Proc text [] [kwargs])
  else (Uncaught UnicodeEncodeError, Proc [] [] [kwargs]).

(** The record [e] with each attribute it lacks set to what [getattr] takes
    in its place: the class fact, the text [str(e)]. *)
Definition with_defaults (e : extraction) : extraction :=
  {| extraction_class :=
       Some (getattr (extraction_class e) (PyStr (lit "fact")));
     extraction_text :=
       Some (getattr (extraction_text e) (PyStr (to_str e)));
     to_str := to_str e |}.

(** The record [e] with its class set to [c]. *)
Definition with_class (c : str) (e : extraction) : extraction :=
  {| extraction_class := Some (PyStr c);
     extraction_text := extraction_text e;
     to_str := to_str e |}.

(** ** Sample data *)

Definition record (c t : string) : extraction :=
  Extraction (Some (PyStr (lit c))) (Some (PyStr (lit t))) (lit "Extraction()").

(** An engine that fails when first called and would succeed afterwards. *)
Definition flaky_engine (n : nat) (kwargs : extract_kwargs) : outcome :=
  match n with
  | O => Raises (lit "timeout")
  | S _ =>
      Returns (OneDocument (AnnotatedDocument (Some
        [Extraction (Some (PyStr (lit "fact"))) (Some (PyStr (lit "x"))) []])))
  end.

(** An engine that finds nothing worth keeping: one fact of blanks. *)
Definition blank_engine (n : nat) (kwargs : extract_kwargs) : outcome :=
  Returns (OneDocument (AnnotatedDocument (Some
    [Extraction (Some (PyStr (lit "fact"))) (Some (PyStr (lit "   "))) []]))).

(** The first variable holds only blanks, the second a key. *)
Definition shadowing_environ : gmap str str :=
  <[LANGEXTRACT_API_KEY := lit "  "]> (<[GOOGLE_API_KEY := lit "secret"]> ∅).

(** A record whose text is [None]. *)
Definition malformed_document : document :=
  AnnotatedDocument (Some
    [Extraction (Some (PyStr (lit "fact"))) (Some PyNone) (lit "Extraction()")]).

(** An engine that returns the malformed document. *)
Definition malformed_engine (n : nat) (kwargs : extract_kwargs) : outcome :=
  Returns (OneDocument malformed_document).

(** An engine that returns a fact whose text is a lone surrogate. *)
Definition surrogate_engine (n : nat) (kwargs : extract_kwargs) : outcome :=
  Returns (OneDocument (AnnotatedDocument (Some
    [Extraction (Some (PyStr (lit "fact"))) (Some (PyStr [55296])) []]))).

(** A page of 50,001 characters. *)
Definition long_page : str := N.iter 50001 (cons 97) [].

Definition mixed_records : list extraction :=
  [record "foo_bar" "d"; record "fact" "c"; record "key_point" "b";
   record "summary" "a"].

Definition interleaved_records : list extraction :=
  [record "fact" " one "; record "note" "   "; record "summary" "s";
   record "fact" ""; record "fact" "two"].

(** ** Names used in the further statements *)

(** The dictionary key of a record: its class, whatever it is, or fact. *)
Definition key_of (e : extraction) : pyval :=
  getattr (extraction_class e) (PyStr (lit "fact")).

(** The record's text is absent or a string, so that it can be trimmed. *)
Definition text_present (e : extraction) : bool :=
  well_typed_field (extraction_text e).

(** Nothing is left of the record's text once trimmed. *)
Definition blank (e : extraction) : bool := bool_decide (text_of e = []).

(** A record the function gets through: its text can be trimmed, and its
    class is a string unless the text is blank. *)
Definition acceptable (e : extraction) : bool :=
  text_present e && (is_str (key_of e) || blank e).

(** The group of any key, as [group_of] is the group of a string. *)
Definition items_of (k : pyval) (es : list extraction) : list str :=
  filter (λ t, t ≠ []) (text_of <$> filter (λ e, key_of e = k) es).

(** The world [w] with another engine. *)
Definition with_engine (lx : nat → extract_kwargs → outcome) (w : world)
    : world :=
  {| stdin := stdin w; environ := environ w; langextract := Some lx;
     stdout_encodes := stdout_encodes w |}.

(** A record that keeps a text under the key [None], under a string key. *)
Definition keeps_none_key (e : extraction) : bool :=
  negb (is_str (key_of e)) && negb (blank e).

Definition keeps_str_key (e : extraction) : bool :=
  is_str (key_of e) && negb (blank e).

(** * Properties *)

(** ** Strings *)

Lemma slice_to_take n s : slice_to n s = take (N.to_nat n) s.
Proof.
  revert n. induction s as [|c s IH]; intros n; simpl.
  - by rewrite take_nil.
  - destruct (N.eqb_spec n 0) as [->|Hn]; [done|].
    rewrite IH. replace (N.to_nat n) with (S (N.to_nat (N.pred n))) by lia.
    done.
Qed.

Lemma slice_to_all n s : len s ≤ n → slice_to n s = s.
Proof.
  unfold len. intros Hn. rewrite slice_to_take. apply take_ge. lia.
Qed.

Lemma len_slice_to n s : len (slice_to n s) = N.min n (len s).
Proof. unfold len. rewrite slice_to_take, length_take. lia. Qed.

Lemma slice_to_prefix n s : slice_to n s `prefix_of` s.
Proof. rewrite slice_to_take. apply prefix_take. Qed.

Lemma slice_to_nonempty n s : 0 < n → s ≠ [] → slice_to n s ≠ [].
Proof.
  intros Hn Hs. destruct s as [|c s]; [done|]. simpl.
  destruct (N.eqb_spec n 0); [lia | done].
Qed.

Lemma lstrip_nil_iff s : lstrip s = [] ↔ forallb isspace s = true.
Proof.
  induction s as [|c s IH]; simpl; [done|].
  destruct (isspace c); simpl; [done|]. split; [done | discriminate].
Qed.

Lemma lstrip_spaces s : forallb isspace s = true → lstrip s = [].
Proof. apply lstrip_nil_iff. Qed.

Lemma forallb_isspace_reverse s :
  forallb isspace (reverse s) = forallb isspace s.
Proof.
  apply eq_true_iff_eq. rewrite !forallb_forall.
  split; intros Hs c Hc; apply Hs;
    apply list_elem_of_In; apply list_elem_of_In in Hc;
    by apply elem_of_reverse.
Qed.

Lemma rstrip_nil_iff s : rstrip s = [] ↔ forallb isspace s = true.
Proof.
  unfold rstrip. rewrite <- forallb_isspace_reverse, <- lstrip_nil_iff.
  split; [|by intros ->].
  intros Hr. apply (f_equal reverse) in Hr. by rewrite reverse_involutive in Hr.
Qed.

(** A string is stripped to nothing exactly when it is made of whitespace. *)
Lemma strip_nil_iff s : strip s = [] ↔ forallb isspace s = true.
Proof.
  unfold strip. rewrite rstrip_nil_iff. split.
  - intros Hl. induction s as [|c s IH]; simpl in *; [done|].
    destruct (isspace c) eqn:Hc; simpl; [by apply IH|].
    simpl in Hl. by rewrite Hc in Hl.
  - intros Hs. by rewrite lstrip_spaces.
Qed.

(** ** The grouping loop *)

Lemma bind_Ok {A B} (a : A) (f : A → res B) : Ok a ≫= f = f a.
Proof. done. Qed.

Lemma well_typed_label e :
  well_typed e = true →
  getattr (extraction_class e) (PyStr (lit "fact")) = PyStr (label_of e).
Proof.
  unfold well_typed, label_of, getattr.
  by destruct (extraction_class e) as [[|s]|].
Qed.

Lemma well_typed_text e :
  well_typed e = true →
  py_strip (getattr (extraction_text e) (PyStr (to_str e))) = Ok (text_of e).
Proof.
  unfold well_typed, text_of, getattr. rewrite andb_true_iff.
  by destruct (extraction_text e) as [[|s]|]; intros [_ ?].
Qed.

Lemma group_of_cons c e es :
  group_of c (e :: es) =
    if decide (label_of e = c ∧ text_of e ≠ [])
    then text_of e :: group_of c es else group_of c es.
Proof.
  unfold group_of. rewrite filter_cons.
  destruct (decide (label_of e = c)) as [Hc|Hc].
  - rewrite fmap_cons, filter_cons.
    destruct (decide (text_of e ≠ [])) as [Ht|Ht].
    + by rewrite decide_True.
    + by rewrite decide_False by tauto.
  - by rewrite decide_False by tauto.
Qed.

Lemma group_loop_well_typed es : ∀ by_class,
  forallb well_typed es = true →
  ∃ by_class',
    group_loop by_class es = Ok by_class'
    ∧ by_class' !! PyNone = by_class !! PyNone
    ∧ ∀ c, by_class' !! PyStr c = extend (by_class !! PyStr c) (group_of c es).
Proof.
  induction es as [|e es IH]; intros m Hwt; simpl in *.
  { exists m. by split_and!. }
  apply andb_true_iff in Hwt as [He Hes].
  unfold group_step. rewrite well_typed_label, well_typed_text by done. simpl.
  destruct (text_of e) as [|a t] eqn:Ht.
  - rewrite bind_Ok. destruct (IH m Hes) as (m' & -> & HN & Hm'). exists m'.
    split_and!; [done..|]. intros c. rewrite Hm', group_of_cons, Ht.
    by rewrite decide_False by (intros [_ ?]; done).
  - rewrite bind_Ok.
    destruct (IH (setdefault_append (PyStr (label_of e)) (a :: t) m) Hes)
      as (m' & -> & HN & Hm').
    exists m'. split_and!; [done| |].
    + rewrite HN. unfold setdefault_append. by rewrite lookup_insert_ne.
    + intros c. rewrite Hm', group_of_cons, Ht. unfold setdefault_append.
      destruct (decide (label_of e = c)) as [->|Hc].
      * rewrite lookup_insert_eq. rewrite decide_True by done.
        destruct (group_of c es); simpl; [done|].
        by rewrite <- app_assoc.
      * rewrite lookup_insert_ne by congruence.
        by rewrite decide_False by tauto.
Qed.

(** The dictionary the loop builds from nothing: a key for each label that
    has an item, holding the label's group. *)
Lemma group_loop_empty es :
  forallb well_typed es = true →
  ∃ by_class,
    group_loop ∅ es = Ok by_class
    ∧ by_class !! PyNone = None
    ∧ ∀ c, by_class !! PyStr c = extend None (group_of c es).
Proof.
  intros Hwt. destruct (group_loop_well_typed es ∅ Hwt) as (m & ? & HN & Hm).
  exists m. split_and!; [done|by rewrite HN|]. intros c. by rewrite Hm.
Qed.

Lemma extend_None texts :
  extend None texts = match texts with [] => None | _ => Some texts end.
Proof. by destruct texts. Qed.

Lemma get_items_grouped (by_class : gmap pyval (list str)) es c :
  by_class !! PyStr c = extend None (group_of c es) →
  get_items by_class c = group_of c es.
Proof.
  unfold get_items. intros ->. by destruct (group_of c es).
Qed.

Lemma text_of_group_of c es t : t ∈ group_of c es → t ≠ [].
Proof. unfold group_of. rewrite list_elem_of_filter. tauto. Qed.

(** A label is present exactly when its group is not empty. *)
Lemma elem_of_present_labels c es :
  c ∈ present_labels es ↔ group_of c es ≠ [].
Proof.
  unfold present_labels. rewrite elem_of_remove_dups, list_elem_of_fmap.
  split.
  - intros (e & -> & He). apply list_elem_of_filter in He as [Ht He].
    intros Hnil. assert (text_of e ∈ group_of (label_of e) es) as Hin.
    { unfold group_of. apply list_elem_of_filter. split; [done|].
      apply list_elem_of_fmap. exists e. split; [done|].
      by apply list_elem_of_filter. }
    rewrite Hnil in Hin. by apply not_elem_of_nil in Hin.
  - intros Hne. destruct (group_of c es) as [|t ts] eqn:Hg; [done|].
    assert (t ∈ group_of c es) as Hin by (rewrite Hg; left).
    unfold group_of in Hin. apply list_elem_of_filter in Hin as [Ht Hin].
    apply list_elem_of_fmap in Hin as (e & -> & He).
    apply list_elem_of_filter in He as [Hc He].
    exists e. split; [done|]. by apply list_elem_of_filter.
Qed.

(** ** Sorting *)

(** [lexico_le] is a total order. *)
Section lexico_le_order.
Context `{Lexico A, !StrictOrder (@lexico A _), !TrichotomyT (@lexico A _)}.

Global Instance lexico_le_total : Total (@lexico_le A _).
Proof.
  intros a b. unfold lexico_le.
  destruct (trichotomyT lexico a b) as [[Hab| ->]|Hba].
  - left. intros Hba. by apply (irreflexivity lexico a); trans b.
  - left. apply (irreflexivity lexico b).
  - right. intros Hab. by apply (irreflexivity lexico a); trans b.
Qed.

Global Instance lexico_le_trans : Transitive (@lexico_le A _).
Proof.
  intros a b c Hab Hbc Hca. unfold lexico_le in *.
  destruct (trichotomyT lexico a b) as [[Hlt| ->]|Hgt]; [|done..].
  apply Hbc. by trans a.
Qed.

Global Instance lexico_le_antisymm : AntiSymm (=) (@lexico_le A _).
Proof.
  intros a b Hab Hba. unfold lexico_le in *.
  by destruct (trichotomyT lexico a b) as [[?|?]|?].
Qed.
End lexico_le_order.

Section sorting.
Context `{Lexico A, !StrictOrder (@lexico A _), !TrichotomyT (@lexico A _)}.
Implicit Types l k : list A.

(** A list has one ascending arrangement. *)
Lemma sorted_unique l k :
  Sorted lexico_le l → Sorted lexico_le k → l ≡ₚ k → l = k.
Proof. apply (Sorted_unique lexico_le). Qed.

Lemma merge_sort_unique l k :
  Sorted lexico_le k → k ≡ₚ l → merge_sort lexico_le l = k.
Proof.
  intros Hk Hp. apply sorted_unique; [|done|].
  - apply (Sorted_merge_sort lexico_le).
  - by rewrite merge_sort_Permutation.
Qed.

Lemma merge_sort_permutation l k :
  l ≡ₚ k → merge_sort lexico_le l = merge_sort lexico_le k.
Proof.
  intros Hp. apply merge_sort_unique.
  - apply (Sorted_merge_sort lexico_le).
  - by rewrite merge_sort_Permutation.
Qed.

Lemma strongly_sorted_filter (R : relation A) (P : A → Prop)
    `{∀ x, Decision (P x)} l :
  StronglySorted R l → StronglySorted R (filter P l).
Proof.
  induction 1 as [|x l Hl IH Hx]; [constructor|].
  rewrite filter_cons. case_decide; [|done].
  constructor; [done|]. rewrite Forall_forall in Hx |- *.
  intros y Hy. apply list_elem_of_filter in Hy as [_ Hy]. by apply Hx.
Qed.

(** Leaving elements out of a sorted list, or sorting what is left. *)
Lemma filter_merge_sort (P : A → Prop) `{∀ x, Decision (P x)} l :
  filter P (merge_sort lexico_le l) = merge_sort lexico_le (filter P l).
Proof.
  symmetry. apply merge_sort_unique.
  - apply StronglySorted_Sorted, strongly_sorted_filter.
    apply (StronglySorted_merge_sort lexico_le).
  - by rewrite merge_sort_Permutation.
Qed.

(** Ascending and without repetition is strictly ascending. *)
Lemma sorted_strict l :
  NoDup l → Sorted lexico_le l → StronglySorted lexico l.
Proof.
  intros Hnd Hs. apply (Sorted_StronglySorted lexico_le) in Hs.
  induction Hs as [|x l Hl IH Hx]; [constructor|].
  apply NoDup_cons in Hnd as [Hxl Hnd].
  constructor; [by apply IH|]. rewrite Forall_forall in Hx |- *.
  intros y Hy. specialize (Hx y Hy). unfold lexico_le in Hx.
  destruct (trichotomyT lexico x y) as [[?| ->]|?]; done.
Qed.

Lemma strictly_sorted_NoDup l : StronglySorted lexico l → NoDup l.
Proof.
  induction 1 as [|x l Hl IH Hx]; [constructor|].
  apply NoDup_cons. split; [|done]. rewrite Forall_forall in Hx.
  intros Hin. by apply (irreflexivity lexico x), Hx.
Qed.
End sorting.

(** ** From the dictionary to the sections *)

Lemma section_text_summary es :
  section_text es (lit "summary")
  = lit "Summary:" ++ nl ++ join nl (group_of (lit "summary") es).
Proof. reflexivity. Qed.

Lemma section_text_key_point es :
  section_text es (lit "key_point")
  = lit "Key points:" ++ nl ++ bullets (group_of (lit "key_point") es).
Proof. reflexivity. Qed.

Lemma section_text_fact es :
  section_text es (lit "fact")
  = lit "Facts:" ++ nl ++ bullets (group_of (lit "fact") es).
Proof. reflexivity. Qed.

Global Instance item_of_inj es : Inj (=) (=) (item_of es).
Proof. by intros c d [= ->]. Qed.

Lemma item_of_mono es c d :
  lexico_le c d → lexico_le (item_of es c) (item_of es d).
Proof.
  unfold lexico_le, item_of. intros Hcd [Hlt|[Heq Hlt]]; simpl in *.
  - by apply Hcd.
  - injection Heq as ->. by apply (irreflexivity lexico (group_of c es)).
Qed.

Section grouped.
Context (es : list extraction) (by_class : gmap pyval (list str)).
Hypothesis lookup_None : by_class !! PyNone = None.
Hypothesis lookup_Str :
  ∀ c, by_class !! PyStr c = extend None (group_of c es).

Lemma elem_of_grouped k v :
  (k, v) ∈ map_to_list by_class ↔ (k, v) ∈ item_of es <$> present_labels es.
Proof.
  rewrite elem_of_map_to_list, list_elem_of_fmap. split.
  - destruct k as [|c]; [by rewrite lookup_None|].
    rewrite lookup_Str, extend_None. intros Hv. exists c.
    destruct (group_of c es) as [|t ts] eqn:Hg; [done|].
    injection Hv as <-. unfold item_of. rewrite Hg. split; [done|].
    apply elem_of_present_labels. by rewrite Hg.
  - intros (c & [= -> ->] & Hc). rewrite lookup_Str, extend_None.
    apply elem_of_present_labels in Hc. by destruct (group_of c es).
Qed.

Lemma map_to_list_grouped :
  map_to_list by_class ≡ₚ item_of es <$> present_labels es.
Proof.
  apply NoDup_Permutation.
  - apply NoDup_map_to_list.
  - apply (NoDup_fmap_2 _), NoDup_remove_dups.
  - intros [k v]. apply elem_of_grouped.
Qed.

Lemma keys_comparable_grouped :
  keys_comparable (map_to_list by_class) = true.
Proof.
  unfold keys_comparable. apply orb_true_iff. left.
  apply forallb_forall. intros [k v] Hkv.
  apply list_elem_of_In, elem_of_grouped, list_elem_of_fmap in Hkv.
  by destruct Hkv as (c & [= -> _] & _).
Qed.

Lemma sorted_items_grouped :
  sorted_items by_class
  = Ok (item_of es <$> merge_sort lexico_le (present_labels es)).
Proof.
  unfold sorted_items. rewrite keys_comparable_grouped. f_equal.
  apply merge_sort_unique.
  - apply Sorted_fmap with (R1 := lexico_le); [apply item_of_mono|].
    apply (Sorted_merge_sort lexico_le).
  - by rewrite map_to_list_grouped, merge_sort_Permutation.
Qed.

Lemma canonical_parts_grouped :
  canonical_parts by_class
  = section_text es <$> filter (λ c, group_of c es ≠ []) canonical.
Proof.
  unfold canonical_parts, canonical.
  rewrite !(get_items_grouped _ es) by apply lookup_Str.
  rewrite !filter_cons, filter_nil.
  destruct (group_of (lit "summary") es) eqn:Hs,
    (group_of (lit "key_point") es) eqn:Hk,
    (group_of (lit "fact") es) eqn:Hf;
    repeat (first [rewrite decide_True by done
                  |rewrite decide_False by (intros Hn; by apply Hn)]);
    rewrite ?fmap_cons, ?section_text_summary, ?section_text_key_point,
      ?section_text_fact, ?Hs, ?Hk, ?Hf; reflexivity.
Qed.
End grouped.

Lemma is_canonical_str c : is_canonical (PyStr c) = bool_decide (c ∈ canonical).
Proof.
  unfold is_canonical, canonical. apply bool_decide_ext.
  rewrite !elem_of_cons, elem_of_nil.
  intuition congruence.
Qed.

Lemma follows_cased_snoc pre c rest :
  follows_cased ((pre ++ [c]) ++ rest) (length (pre ++ [c])) = is_cased ucd c.
Proof.
  rewrite length_app, Nat.add_1_r, <- app_assoc. simpl.
  by rewrite list_lookup_middle.
Qed.

Lemma title_from_title_case rest : ∀ pre,
  title_from (reverse pre) (follows_cased (pre ++ rest) (length pre)) rest
  = mjoin (imap (λ i, title_char (pre ++ rest) (length pre + i)) rest).
Proof.
  induction rest as [|c rest IH]; intros pre; [done|].
  rewrite imap_cons. simpl.
  f_equal.
  - unfold title_char, lower. rewrite Nat.add_0_r.
    rewrite take_app_length.
    assert (drop (S (length pre)) (pre ++ c :: rest) = rest) as ->; [|done].
    by rewrite (cons_middle c pre rest), app_assoc, drop_app_length'
      by (rewrite length_app; simpl; lia).
  - specialize (IH (pre ++ [c])).
    rewrite reverse_app, follows_cased_snoc in IH. simpl in IH.
    rewrite IH. f_equal. apply imap_ext. intros i x _. simpl.
    rewrite <- app_assoc, length_app. simpl. f_equal. lia.
Qed.

(** The loop of [str.title] and the title-casing by position agree. *)
Lemma title_title_case s : title s = title_case s.
Proof. apply (title_from_title_case s []). Qed.

Lemma mjoin_imap_singleton {A B} (l : list A) : ∀ g : nat → A → B,
  mjoin (imap (λ i x, [g i x]) l) = imap g l.
Proof.
  induction l as [|x l IH]; intros g; [done|].
  rewrite !imap_cons. simpl. f_equal. apply (IH (g ∘ S)).
Qed.

Lemma replace_char_ascii a b s :
  b < 128 →
  Forall (λ c, c < 128) s →
  Forall (λ c, c < 128) (replace_char a b s).
Proof.
  intros Hb Hs. unfold replace_char. apply Forall_fmap.
  eapply Forall_impl; [exact Hs|]. simpl. intros c Hc. by destruct (c =? a).
Qed.

(** Title-casing of ASCII text, on a database that is right about ASCII: a
    letter that follows a letter is put in lower case, any other letter in
    upper case, and nothing else changes. *)
Lemma title_case_ascii s :
  ascii_faithful ucd →
  Forall (λ c, c < 128) s →
  title_case s
  = imap (λ i c,
      if match i with
         | O => false
         | S j => from_option ascii_letter false (s !! j)
         end
      then ascii_lower c else ascii_title c) s.
Proof.
  intros Hucd Hs. unfold title_case.
  etrans; [|apply (mjoin_imap_singleton s)]. f_equal. apply imap_ext.
  intros i c Hc. rewrite Forall_forall in Hs.
  assert (c < 128) as Hc128 by (apply Hs; by eapply list_elem_of_lookup_2).
  destruct (Hucd c Hc128) as (_ & Htitle & Hlower).
  unfold title_char. rewrite Htitle, Hlower.
  assert ((c =? 931) = false) as -> by (apply N.eqb_neq; lia).
  assert (follows_cased s i
          = match i with
            | O => false
            | S j => from_option ascii_letter false (s !! j)
            end) as ->; [|by destruct i; [|destruct (from_option _ _ _)]].
  destruct i as [|j]; [done|]. simpl.
  destruct (s !! j) as [p|] eqn:Hp; [|done]. simpl.
  apply Hucd, Hs. by eapply list_elem_of_lookup_2.
Qed.

Lemma ascii_only_faithful : ascii_faithful ascii_only.
Proof. by intros c _. Qed.

Lemma section_text_extra es c :
  c ∉ canonical →
  section_text es c = header c ++ nl ++ bullets (group_of c es).
Proof.
  unfold canonical. rewrite !not_elem_of_cons. intros (? & ? & ? & _).
  unfold section_text, section_title, section_lines, header, bullets.
  rewrite !decide_False by done. rewrite title_title_case.
  by rewrite <- app_assoc.
Qed.

Lemma other_parts_items es l : ∀ parts,
  other_parts parts (item_of es <$> l)
  = Ok (parts ++ (section_text es <$> filter (λ c, c ∉ canonical) l)).
Proof.
  induction l as [|c l IH]; intros parts; simpl.
  { by rewrite app_nil_r. }
  rewrite is_canonical_str, filter_cons.
  destruct (decide (c ∈ canonical)) as [Hc|Hc].
  - rewrite bool_decide_eq_true_2 by done. rewrite decide_False by tauto.
    apply IH.
  - rewrite bool_decide_eq_false_2 by done. rewrite decide_True by done.
    rewrite IH, fmap_cons, section_text_extra by done.
    by rewrite <- app_assoc.
Qed.

(** The refinement: on records whose attributes are absent or strings, the
    code computes what the specification's normaliser describes. *)
Lemma flatten_extractions_normalize es :
  forallb well_typed es = true →
  flatten_extractions (AnnotatedDocument (Some es)) = Ok (normalize es).
Proof.
  intros Hwt. destruct es as [|e es]; [done|].
  unfold flatten_extractions.
  destruct (group_loop_empty (e :: es) Hwt) as (m & -> & HN & Hm).
  rewrite bind_Ok. rewrite (sorted_items_grouped (e :: es)) by done.
  rewrite bind_Ok, other_parts_items, bind_Ok.
  rewrite (canonical_parts_grouped (e :: es)) by done.
  rewrite filter_merge_sort, <- fmap_app. unfold normalize, section_order, extra_labels.
  by destruct (_ <$> _).
Qed.

(** The function on any list of records, the empty one included. *)
Lemma flatten_extractions_some es :
  flatten_extractions (AnnotatedDocument (Some es))
  = by_class ← group_loop ∅ es;
    items ← sorted_items by_class;
    parts ← other_parts (canonical_parts by_class) items;
    Ok (match parts with [] => [] | _ => join (nl ++ nl) parts end).
Proof. destruct es; [by vm_compute | done]. Qed.

(** ** The driver, in one equation *)

(** Every way a run can go, read off [main]. *)
Lemma run_cases w :
  run w =
    match strip (stdin w) with
    | [] => (Exited 1, Proc [] no_input_message [])
    | raw =>
        match langextract w with
        | None => (Exited 1, Proc [] not_installed_message [])
        | Some lx =>
            let kwargs := build_kwargs raw (environ w) in
            match lx 0%nat kwargs with
            | Raises msg => (Exited 1, Proc [] (failed_message msg) [kwargs])
            | Interrupted => (Uncaught KeyboardInterrupt, Proc [] [] [kwargs])
            | Exits code => (Exited code, Proc [] [] [kwargs])
            | Returns result =>
                match flatten_extractions (first_document result) with
                | Raise e => (Uncaught e, Proc [] [] [kwargs])
                | Ok out => written_or_refused w kwargs (output_text raw out)
                end
            end
        end
    end.
Proof.
  unfold run, main. destruct (strip (stdin w)) as [|c raw]; [reflexivity|].
  destruct (langextract w) as [lx|]; [|reflexivity].
  cbn zeta. set (kwargs := build_kwargs _ _).
  unfold mbind at 1, io_bind at 1, lx_extract. cbn [calls length].
  destruct (lx 0%nat kwargs) as [result|msg| |code]; [|reflexivity..].
  unfold mbind at 1, io_bind at 1, lift_res.
  destruct (flatten_extractions _) as [out|e]; [|reflexivity].
  unfold written_or_refused, output_text, stdout_write.
  destruct (strip out); by destruct (stdout_encodes w _).
Qed.

Lemma build_kwargs_text raw env :
  text_or_documents (build_kwargs raw env) = slice_to 200000 raw.
Proof. unfold build_kwargs. by destruct (__get_env_key env). Qed.

(** ** The claims about the driver *)

(** C6: when standard input is empty or only whitespace after trimming, the
    driver writes the diagnostic to the error stream, exits with status 1 and
    writes nothing to standard output; the engine is not called. *)
Theorem empty_input_exits w :
  forallb isspace (stdin w) = true →
  run w = (Exited 1, Proc [] no_input_message [])
  ∧ stdout (run w).2 = [] ∧ stderr (run w).2 ≠ [] ∧ (run w).1 ≠ Exited 0.
Proof.
  intros Hws. apply strip_nil_iff in Hws.
  rewrite run_cases, Hws. by split_and!.
Qed.

(** C7: on a non-empty input, when the engine's call raises an exception with
    message [msg], the driver writes a diagnostic that ends with [msg] and a
    newline to the error stream, exits with status 1, writes nothing to
    standard output, and has called the engine once: whatever the engine
    would answer to a second call, there is none. *)
Theorem extraction_failure_exits w lx msg :
  strip (stdin w) ≠ [] →
  langextract w = Some lx →
  lx 0%nat (build_kwargs (strip (stdin w)) (environ w)) = Raises msg →
  run w = (Exited 1,
           Proc [] (lit "extract_structured: extraction failed: " ++ msg ++ nl)
                [build_kwargs (strip (stdin w)) (environ w)])
  ∧ stdout (run w).2 = []
  ∧ length (calls (run w).2) = 1%nat.
Proof.
  intros Hraw Hlx Hmsg. rewrite run_cases.
  destruct (strip (stdin w)) as [|c raw]; [done|].
  rewrite Hlx. cbn zeta. rewrite Hmsg. by split_and!.
Qed.

(** On a well-typed document the code returns, and returns what the
    specification's normaliser describes. *)
Lemma flatten_extractions_well_typed d :
  well_typed_document d = true →
  flatten_extractions d =
    Ok (match d with
        | AnnotatedDocument (Some es) => normalize es
        | _ => []
        end).
Proof.
  destruct d as [|[es|]]; [done| |done]. apply flatten_extractions_normalize.
Qed.

Lemma strip_nonempty out : strip out ≠ [] → out ≠ [].
Proof. by intros Hs ->. Qed.

(** C9: the text sent to the engine is the first 200,000 characters of the
    stripped input: a prefix of it of at most that length, the whole of it
    when it has 200,000 characters or fewer, and exactly 200,000 characters
    long when it has more. The engine is called once, with that text. *)
Theorem input_truncated w lx :
  strip (stdin w) ≠ [] →
  langextract w = Some lx →
  ∃ kwargs,
    calls (run w).2 = [kwargs]
    ∧ text_or_documents kwargs = slice_to 200000 (strip (stdin w))
    ∧ text_or_documents kwargs `prefix_of` strip (stdin w)
    ∧ len (text_or_documents kwargs) ≤ 200000
    ∧ (len (strip (stdin w)) ≤ 200000 →
       text_or_documents kwargs = strip (stdin w))
    ∧ (200000 < len (strip (stdin w)) →
       len (text_or_documents kwargs) = 200000).
Proof.
  intros Hraw Hlx. exists (build_kwargs (strip (stdin w)) (environ w)).
  rewrite build_kwargs_text. split_and!.
  - rewrite run_cases. destruct (strip (stdin w)) as [|c raw]; [done|].
    rewrite Hlx. cbn zeta. destruct (lx _ _) as [result|msg| |code]; [|done..].
    destruct (flatten_extractions _); [|done].
    unfold written_or_refused. by destruct (stdout_encodes w _).
  - done.
  - apply slice_to_prefix.
  - rewrite len_slice_to. lia.
  - apply slice_to_all.
  - rewrite len_slice_to. lia.
Qed.

Lemma output_text_fallback raw out :
  strip out = [] → output_text raw out = slice_to 50000 raw.
Proof. unfold output_text. by intros ->. Qed.

Lemma output_text_normalised raw out :
  strip out ≠ [] → output_text raw out = out.
Proof. unfold output_text. by destruct (strip out). Qed.

Lemma output_text_nonempty raw out : raw ≠ [] → output_text raw out ≠ [].
Proof.
  intros Hraw. destruct (strip out) as [|c s] eqn:Hout.
  - rewrite output_text_fallback by done. by apply slice_to_nonempty.
  - rewrite output_text_normalised by by rewrite Hout.
    apply strip_nonempty. by rewrite Hout.
Qed.

Lemma written_or_refused_true w kwargs text :
  stdout_encodes w text = true →
  written_or_refused w kwargs text = (Exited 0, Proc text [] [kwargs]).
Proof. unfold written_or_refused. by intros ->. Qed.

Lemma written_or_refused_false w kwargs text :
  stdout_encodes w text = false →
  written_or_refused w kwargs text
  = (Uncaught UnicodeEncodeError, Proc [] [] [kwargs]).
Proof. unfold written_or_refused. by intros ->. Qed.

(** The run once the engine has returned. *)
Lemma run_returned w lx result :
  strip (stdin w) ≠ [] →
  langextract w = Some lx →
  lx 0%nat (build_kwargs (strip (stdin w)) (environ w)) = Returns result →
  run w =
    match flatten_extractions (first_document result) with
    | Raise e =>
        (Uncaught e, Proc [] [] [build_kwargs (strip (stdin w)) (environ w)])
    | Ok out =>
        written_or_refused w (build_kwargs (strip (stdin w)) (environ w))
          (output_text (strip (stdin w)) out)
    end.
Proof.
  intros Hraw Hlx Hres. rewrite run_cases.
  destruct (strip (stdin w)) as [|c raw]; [done|].
  rewrite Hlx. cbn zeta. by rewrite Hres.
Qed.

(** C4, amended: on a non-empty input for which the engine returns. When
    normalisation yields a blank string, the driver hands to standard output
    the first 50,000 characters of the stripped input: a prefix of it, the
    whole of it when it has 50,000 characters or fewer, and exactly 50,000
    characters long when it has more. When normalisation yields any other
    string, the driver hands over that string. The text handed over is never
    empty; it is written, with exit status 0, when the stream can encode it,
    and when it cannot the write raises [UnicodeEncodeError] and nothing is
    written. When normalisation raises, nothing is written either. Hence, on
    a document whose records are well typed, normalisation returns and a
    non-empty text is handed over, and written if the stream can encode
    it. *)
Theorem blank_output_falls_back w lx result :
  strip (stdin w) ≠ [] →
  langextract w = Some lx →
  lx 0%nat (build_kwargs (strip (stdin w)) (environ w)) = Returns result →
  (∀ out, flatten_extractions (first_document result) = Ok out →
     strip out = [] →
     ∃ text,
       text `prefix_of` strip (stdin w)
       ∧ (len (strip (stdin w)) ≤ 50000 → text = strip (stdin w))
       ∧ (50000 < len (strip (stdin w)) → len text = 50000)
       ∧ text ≠ []
       ∧ (stdout_encodes w text = true →
          run w = (Exited 0,
                   Proc text [] [build_kwargs (strip (stdin w)) (environ w)]))
       ∧ (stdout_encodes w text = false →
          run w = (Uncaught UnicodeEncodeError,
                   Proc [] [] [build_kwargs (strip (stdin w)) (environ w)])))
  ∧ (∀ out, flatten_extractions (first_document result) = Ok out →
       strip out ≠ [] →
       out ≠ []
       ∧ (stdout_encodes w out = true →
          run w = (Exited 0,
                   Proc out [] [build_kwargs (strip (stdin w)) (environ w)]))
       ∧ (stdout_encodes w out = false →
          run w = (Uncaught UnicodeEncodeError,
                   Proc [] [] [build_kwargs (strip (stdin w)) (environ w)])))
  ∧ (∀ e, flatten_extractions (first_document result) = Raise e →
       run w = (Uncaught e,
                Proc [] [] [build_kwargs (strip (stdin w)) (environ w)]))
  ∧ (well_typed_document (first_document result) = true →
     ∃ out text,
       flatten_extractions (first_document result) = Ok out
       ∧ text ≠ []
       ∧ (stdout_encodes w text = true →
          run w = (Exited 0,
                   Proc text [] [build_kwargs (strip (stdin w)) (environ w)]))
       ∧ (stdout_encodes w text = false →
          run w = (Uncaught UnicodeEncodeError,
                   Proc [] [] [build_kwargs (strip (stdin w)) (environ w)]))).
Proof.
  intros Hraw Hlx Hres. rewrite (run_returned w lx result) by done.
  split_and!.
  - intros out -> Hblank. rewrite output_text_fallback by done.
    exists (slice_to 50000 (strip (stdin w))). split_and!.
    + apply slice_to_prefix.
    + apply slice_to_all.
    + intros Hlong. rewrite len_slice_to. lia.
    + by apply slice_to_nonempty.
    + apply written_or_refused_true.
    + apply written_or_refused_false.
  - intros out -> Hout. rewrite output_text_normalised by done. split_and!.
    + by apply strip_nonempty.
    + apply written_or_refused_true.
    + apply written_or_refused_false.
  - by intros e ->.
  - intros Hwt. rewrite flatten_extractions_well_typed by done.
    eexists _, (output_text (strip (stdin w)) _). split_and!.
    + done.
    + by apply output_text_nonempty.
    + apply written_or_refused_true.
    + apply written_or_refused_false.
Qed.

(** ** The claims about the backend selector *)

(** C3, amended: the first variable is taken when its value is a non-empty
    string, blanks included, otherwise the second is; the value taken is
    trimmed, and the credential is there when something is left of it. With a
    credential the call uses the hosted model and sets neither an endpoint
    nor the fencing and schema flags; without one it uses the local model,
    the local endpoint, and sets both flags to [False]. *)
Theorem backend_selection raw env :
  (∀ v, env !! LANGEXTRACT_API_KEY = Some v → v ≠ [] →
        __get_env_key env = strip v)
  ∧ (env !! LANGEXTRACT_API_KEY = None ∨ env !! LANGEXTRACT_API_KEY = Some [] →
     ∀ v, env !! GOOGLE_API_KEY = Some v → __get_env_key env = strip v)
  ∧ (env !! LANGEXTRACT_API_KEY = None ∨ env !! LANGEXTRACT_API_KEY = Some [] →
     env !! GOOGLE_API_KEY = None → __get_env_key env = [])
  ∧ (__get_env_key env ≠ [] → build_kwargs raw env = hosted_kwargs raw)
  ∧ (__get_env_key env = [] → build_kwargs raw env = local_kwargs raw).
Proof.
  split_and!.
  - unfold __get_env_key, py_or. intros v -> Hv. by destruct v.
  - unfold __get_env_key, py_or. intros [-> | ->] v ->; by destruct v.
  - unfold __get_env_key, py_or. by intros [-> | ->] ->.
  - unfold build_kwargs. by destruct (__get_env_key env).
  - unfold build_kwargs. by intros ->.
Qed.

(** ** The claims about the normaliser *)

Lemma group_loop_with_defaults es : ∀ by_class,
  group_loop by_class (with_defaults <$> es) = group_loop by_class es.
Proof.
  induction es as [|e es IH]; intros m; simpl; [done|].
  change (group_step m (with_defaults e)) with (group_step m e).
  destruct (group_step m e); [|done]. rewrite !bind_Ok. apply IH.
Qed.

Lemma flatten_extractions_with_defaults es :
  flatten_extractions (AnnotatedDocument (Some (with_defaults <$> es)))
  = flatten_extractions (AnnotatedDocument (Some es)).
Proof.
  rewrite !flatten_extractions_some. by rewrite group_loop_with_defaults.
Qed.

(** C5, amended: the function returns a string, and raises nothing, on an
    object without an [extractions] attribute, on one whose [extractions] is
    [None] or empty (the empty string in these three cases), and on every
    list of records in which each of [extraction_class] and
    [extraction_text] is absent or a string. An absent attribute counts as
    its default: on any list, the function does what it does on the list in
    which a record without class has the class fact and a record without text
    has the text [str(e)], the attributes that are there being left alone. *)
Theorem flatten_extractions_total :
  flatten_extractions NoExtractionsAttr = Ok []
  ∧ flatten_extractions (AnnotatedDocument None) = Ok []
  ∧ flatten_extractions (AnnotatedDocument (Some [])) = Ok []
  ∧ (∀ d, well_typed_document d = true →
          ∃ out, flatten_extractions d = Ok out)
  ∧ (∀ es,
       flatten_extractions (AnnotatedDocument (Some es))
       = flatten_extractions (AnnotatedDocument (Some (with_defaults <$> es))))
  ∧ (∀ e,
       extraction_class (with_defaults e)
       = Some (match extraction_class e with
               | Some cls => cls
               | None => PyStr (lit "fact")
               end)
       ∧ extraction_text (with_defaults e)
         = Some (match extraction_text e with
                 | Some text => text
                 | None => PyStr (to_str e)
                 end)
       ∧ to_str (with_defaults e) = to_str e).
Proof.
  split_and!; [done..| | |].
  - intros d Hwt. rewrite flatten_extractions_well_typed by done. eauto.
  - intros es. by rewrite flatten_extractions_with_defaults.
  - intros e. unfold with_defaults, getattr. simpl.
    by destruct (extraction_class e), (extraction_text e).
Qed.

Lemma present_labels_perm es es' :
  es' ≡ₚ es → present_labels es' ≡ₚ present_labels es.
Proof.
  intros Hp. unfold present_labels.
  apply NoDup_Permutation; [apply NoDup_remove_dups..|].
  intros c. rewrite !elem_of_remove_dups. by rewrite Hp.
Qed.

Lemma section_order_perm es es' :
  es' ≡ₚ es → section_order es' = section_order es.
Proof.
  intros Hp. unfold section_order, extra_labels. f_equal.
  - apply list_filter_iff. intros c.
    rewrite <- !elem_of_present_labels. by rewrite (present_labels_perm es es').
  - apply merge_sort_permutation. by rewrite (present_labels_perm es es').
Qed.

Lemma well_typed_perm es es' :
  es' ≡ₚ es → forallb well_typed es = true → forallb well_typed es' = true.
Proof.
  rewrite !forallb_forall. intros Hp Hwt e He. apply Hwt.
  by apply (Permutation_in _ Hp).
Qed.

Lemma extra_labels_sorted es : StronglySorted lexico (extra_labels es).
Proof.
  unfold extra_labels. apply sorted_strict.
  - rewrite merge_sort_Permutation.
    apply NoDup_filter, NoDup_remove_dups.
  - apply (Sorted_merge_sort lexico_le).
Qed.

Lemma elem_of_extra_labels es c :
  c ∈ extra_labels es ↔ (c ∉ canonical) ∧ (group_of c es ≠ []).
Proof.
  unfold extra_labels.
  by rewrite merge_sort_Permutation, list_elem_of_filter, elem_of_present_labels.
Qed.

Lemma elem_of_section_order es c :
  c ∈ section_order es ↔ group_of c es ≠ [].
Proof.
  unfold section_order.
  rewrite elem_of_app, list_elem_of_filter, elem_of_extra_labels.
  destruct (decide (c ∈ canonical)); tauto.
Qed.

Lemma NoDup_section_order es : NoDup (section_order es).
Proof.
  unfold section_order. apply NoDup_app. split_and!.
  - apply NoDup_filter, (bool_decide_unpack _). by vm_compute.
  - intros c Hc Hx. apply list_elem_of_filter in Hc as [_ Hc].
    apply elem_of_extra_labels in Hx as [Hx _]. done.
  - apply strictly_sorted_NoDup, extra_labels_sorted.
Qed.

(** C1: the sections come in a fixed order. The output is the sections of the
    labels [canon ++ others] joined, each section opening with its title:
    [canon] is what is left of summary, key_point, fact, in this order, when
    the labels with an empty group are taken out; [others] holds every other
    label with an item, strictly ascending in the order of [<] on the raw
    label strings. Records given in any other order produce sections for the
    same labels in the same order. *)
Theorem section_order_fixed es :
  forallb well_typed es = true →
  ∃ canon others,
    flatten_extractions (AnnotatedDocument (Some es))
      = Ok (join (nl ++ nl) (section_text es <$> canon ++ others))
    ∧ canon = filter (λ c, group_of c es ≠ [])
                [lit "summary"; lit "key_point"; lit "fact"]
    ∧ StronglySorted lexico others
    ∧ (∀ c, c ∈ others ↔
            (c ∉ [lit "summary"; lit "key_point"; lit "fact"])
            ∧ (group_of c es ≠ []))
    ∧ (∀ es', es' ≡ₚ es →
         flatten_extractions (AnnotatedDocument (Some es'))
           = Ok (join (nl ++ nl) (section_text es' <$> canon ++ others)))
    ∧ (∀ es' c, (section_title c ++ lit ":" ++ nl) `prefix_of` section_text es' c)
    ∧ section_title (lit "summary") = lit "Summary"
    ∧ section_title (lit "key_point") = lit "Key points"
    ∧ section_title (lit "fact") = lit "Facts".
Proof.
  intros Hwt.
  exists (filter (λ c, group_of c es ≠ []) canonical), (extra_labels es).
  split_and!; try done.
  - by apply flatten_extractions_normalize.
  - apply extra_labels_sorted.
  - apply elem_of_extra_labels.
  - intros es' Hp.
    rewrite flatten_extractions_normalize by by apply (well_typed_perm es).
    unfold normalize. by rewrite (section_order_perm es es').
  - intros es' c. unfold section_text. rewrite !(assoc_L (++)).
    by apply prefix_app_r.
Qed.

(** C2: the output is the emitted sections joined by a blank line and by
    nothing else. A section is its header line and then its items, one per
    line: the summary texts as they are, the items of every other section
    behind "- "; the header of a label other than the three canonical ones is
    the label with underscores (95) turned into spaces (32), in title case,
    and a colon. Title case is taken position by position: a character that
    follows a cased character gets its lower-case mapping, any other its
    title-case mapping, whatever the character database; where the database
    is right about ASCII, an ASCII label has each letter that follows a
    letter in lower case, every other letter in upper case and the rest
    unchanged, so that "fooBAR_baz" is headed "Foobar Baz:". One fact
    "Hello world" gives "Facts:\n- Hello world". *)
Theorem sections_formatted es :
  forallb well_typed es = true →
  flatten_extractions (AnnotatedDocument (Some es))
    = Ok (join (nl ++ nl) (section_text es <$> section_order es))
  ∧ section_text es (lit "summary")
    = lit "Summary:" ++ nl ++ join nl (group_of (lit "summary") es)
  ∧ section_text es (lit "key_point")
    = lit "Key points:" ++ nl
      ++ join nl ((λ t, lit "- " ++ t) <$> group_of (lit "key_point") es)
  ∧ section_text es (lit "fact")
    = lit "Facts:" ++ nl
      ++ join nl ((λ t, lit "- " ++ t) <$> group_of (lit "fact") es)
  ∧ (∀ c, c ∉ [lit "summary"; lit "key_point"; lit "fact"] →
       section_text es c
       = title_case (replace_char 95 32 c) ++ lit ":" ++ nl
         ++ join nl ((λ t, lit "- " ++ t) <$> group_of c es))
  ∧ (∀ s i, replace_char 95 32 s !! i
            = (λ c, if c =? 95 then 32 else c) <$> s !! i)
  ∧ (∀ s, title_case s
          = mjoin (imap (λ i c,
              if match i with
                 | O => false
                 | S j => from_option (is_cased ucd) false (s !! j)
                 end
              then
                if c =? 931
                then [if final_sigma (reverse (take i s)) (drop (S i) s)
                      then 962 else 963]
                else to_lower_full ucd c
              else to_title_full ucd c) s))
  ∧ (ascii_faithful ucd →
     ∀ s, Forall (λ c, c < 128) s →
       length (title_case s) = length s
       ∧ ∀ i c, s !! i = Some c →
           title_case s !! i
           = Some (if match i with
                      | O => false
                      | S j => from_option
                                 (λ p, (65 <=? p) && (p <=? 90)
                                       || (97 <=? p) && (p <=? 122))
                                 false (s !! j)
                      end
                   then if (65 <=? c) && (c <=? 90) then c + 32 else c
                   else if (97 <=? c) && (c <=? 122) then c - 32 else c))
  ∧ (ascii_faithful ucd →
     section_text es (lit "fooBAR_baz")
     = lit "Foobar Baz:" ++ nl
       ++ join nl ((λ t, lit "- " ++ t) <$> group_of (lit "fooBAR_baz") es))
  ∧ (∀ sep x y l,
       join sep [] = [] ∧ join sep [x] = x
       ∧ join sep (x :: y :: l) = x ++ sep ++ join sep (y :: l))
  ∧ (∀ s, flatten_extractions (AnnotatedDocument (Some
            [Extraction (Some (PyStr (lit "fact")))
                        (Some (PyStr (lit "Hello world"))) s]))
          = Ok (lit "Facts:" ++ nl ++ lit "- Hello world")).
Proof.
  intros Hwt.
  assert (∀ c, c ∉ [lit "summary"; lit "key_point"; lit "fact"] →
            section_text es c
            = title_case (replace_char 95 32 c) ++ lit ":" ++ nl
              ++ join nl ((λ t, lit "- " ++ t) <$> group_of c es)) as Hextra.
  { intros c Hc. rewrite section_text_extra by done.
    unfold header, bullets. by rewrite title_title_case, <- app_assoc. }
  split_and!;
    [by apply flatten_extractions_normalize | reflexivity.. | exact Hextra
    | | reflexivity | | | | ].
  - intros s i. unfold replace_char. apply list_lookup_fmap.
  - intros Hucd s Hs. rewrite title_case_ascii by done. split.
    + apply length_imap.
    + intros i c Hc. rewrite list_lookup_imap, Hc. simpl.
      unfold ascii_lower, ascii_title, ascii_letter. reflexivity.
  - intros Hucd.
    rewrite Hextra by (apply (bool_decide_unpack _); by vm_compute).
    rewrite title_case_ascii;
      [by vm_compute | done | apply (bool_decide_unpack _); by vm_compute].
  - done.
  - intros s. rewrite flatten_extractions_normalize by done. by vm_compute.
Qed.

(** C8: the grouping is stable and drops blanks. The dictionary holds, under
    each label, the non-empty trimmed texts of the records with that label in
    the order of the input, and has no key for a label none of whose records
    keeps a text; the sections of the output are those of the labels whose
    group is not empty, each once, and list the group as it stands. *)
Theorem grouping_stable es :
  forallb well_typed es = true →
  ∃ by_class,
    group_loop ∅ es = Ok by_class
    ∧ (∀ c, by_class !! PyStr c
            = match group_of c es with [] => None | ts => Some ts end)
    ∧ (∀ c, group_of c es
            = filter (λ t, t ≠ [])
                (text_of <$> filter (λ e, label_of e = c) es))
    ∧ (∀ c, group_of c es `sublist_of` text_of <$> es)
    ∧ (∀ c t, t ∈ group_of c es → t ≠ [])
    ∧ (∀ c, c ∈ section_order es ↔ group_of c es ≠ [])
    ∧ NoDup (section_order es)
    ∧ flatten_extractions (AnnotatedDocument (Some es))
      = Ok (join (nl ++ nl) (section_text es <$> section_order es)).
Proof.
  intros Hwt. destruct (group_loop_empty es Hwt) as (m & Hm & _ & Hlookup).
  exists m. split_and!.
  - done.
  - intros c. rewrite Hlookup. by destruct (group_of c es).
  - done.
  - intros c. unfold group_of. etrans; [apply sublist_filter|].
    apply fmap_sublist, sublist_filter.
  - intros c t. apply text_of_group_of.
  - intros c. apply elem_of_section_order.
  - apply NoDup_section_order.
  - by apply flatten_extractions_normalize.
Qed.

Lemma group_step_absent_class by_class e :
  extraction_class e = None →
  group_step by_class e = group_step by_class (with_class (lit "fact") e).
Proof. unfold group_step. simpl. by intros ->. Qed.

Lemma group_loop_absent_class es1 e es2 : ∀ by_class,
  extraction_class e = None →
  group_loop by_class (es1 ++ e :: es2)
  = group_loop by_class (es1 ++ with_class (lit "fact") e :: es2).
Proof.
  induction es1 as [|e1 es1 IH]; intros m He; simpl.
  - by rewrite (group_step_absent_class m e).
  - destruct (group_step m e1) as [m'|x]; [|done]. rewrite !bind_Ok. by apply IH.
Qed.

Lemma flatten_extractions_nonempty es1 e es2 :
  flatten_extractions (AnnotatedDocument (Some (es1 ++ e :: es2)))
  = by_class ← group_loop ∅ (es1 ++ e :: es2);
    items ← sorted_items by_class;
    parts ← other_parts (canonical_parts by_class) items;
    Ok (match parts with [] => [] | _ => join (nl ++ nl) parts end).
Proof. by destruct es1. Qed.

(** C10: a record without an [extraction_class] attribute is treated as a
    record of class fact: the loop does with it what it does with the same
    record labelled fact, and so does the whole function, wherever the record
    stands. When it keeps a text, that text is an item of the group of fact,
    and the output has the Facts section listing that group as bullets. *)
Theorem absent_class_is_fact es1 e es2 :
  extraction_class e = None →
  (∀ by_class,
     group_step by_class e = group_step by_class (with_class (lit "fact") e))
  ∧ flatten_extractions (AnnotatedDocument (Some (es1 ++ e :: es2)))
    = flatten_extractions
        (AnnotatedDocument (Some (es1 ++ with_class (lit "fact") e :: es2)))
  ∧ (forallb well_typed (es1 ++ e :: es2) = true →
     text_of e ≠ [] →
     text_of e ∈ group_of (lit "fact") (es1 ++ e :: es2)
     ∧ lit "fact" ∈ section_order (es1 ++ e :: es2)
     ∧ section_text (es1 ++ e :: es2) (lit "fact")
       = lit "Facts:" ++ nl
         ++ join nl ((λ t, lit "- " ++ t)
                       <$> group_of (lit "fact") (es1 ++ e :: es2))
     ∧ flatten_extractions (AnnotatedDocument (Some (es1 ++ e :: es2)))
       = Ok (join (nl ++ nl)
               (section_text (es1 ++ e :: es2)
                  <$> section_order (es1 ++ e :: es2)))).
Proof.
  intros He. split_and!.
  - intros m. by apply group_step_absent_class.
  - rewrite !flatten_extractions_nonempty.
    by rewrite (group_loop_absent_class es1 e es2).
  - intros Hwt Ht.
    assert (text_of e ∈ group_of (lit "fact") (es1 ++ e :: es2)) as Hin.
    { unfold group_of. apply list_elem_of_filter. split; [done|].
      apply list_elem_of_fmap. exists e. split; [done|].
      apply list_elem_of_filter. split.
      - unfold label_of. by rewrite He.
      - apply elem_of_app. right. left. }
    split_and!; [done| |reflexivity|by apply flatten_extractions_normalize].
    apply elem_of_section_order. intros Hnil. rewrite Hnil in Hin.
    by apply not_elem_of_nil in Hin.
Qed.

(** * Further properties of the driver *)

Lemma lstrip_split s :
  ∃ ws, s = ws ++ lstrip s ∧ forallb isspace ws = true.
Proof.
  induction s as [|c s (ws & Hs & Hws)]; simpl.
  { by exists []. }
  destruct (isspace c) eqn:Hc.
  - exists (c :: ws). simpl. rewrite Hc, Hws. split; [by f_equal|done].
  - by exists [].
Qed.

Lemma lstrip_head s c s' : lstrip s = c :: s' → isspace c = false.
Proof.
  induction s as [|d s IH]; simpl; [done|].
  destruct (isspace d) eqn:Hd; [done|]. by intros [= -> _].
Qed.

(** What is left of a string after trimming starts with a character that is
    not whitespace. *)
Lemma strip_head s c s' : strip s = c :: s' → isspace c = false.
Proof.
  unfold strip, rstrip. intros Hs.
  destruct (lstrip s) as [|d t] eqn:Ht; [done|].
  pose proof (lstrip_head _ _ _ Ht) as Hd.
  destruct (lstrip_split (reverse (d :: t))) as (ws & Hrev & Hws).
  apply (f_equal reverse) in Hrev.
  rewrite reverse_involutive, reverse_app, Hs in Hrev.
  injection Hrev as -> _. done.
Qed.

Lemma lit_cons_nonempty a s (t : str) : lit (String a s) ++ t ≠ [].
Proof. done. Qed.

(** X1: on a non-blank input, when [langextract] cannot be imported the
    driver writes the installation hint to the error stream, exits with
    status 1, writes nothing to standard output and calls no engine. *)
Theorem missing_langextract_exits w :
  strip (stdin w) ≠ [] →
  langextract w = None →
  run w = (Exited 1, Proc [] not_installed_message []).
Proof.
  intros Hraw Hlx. rewrite run_cases, Hlx. by destruct (strip (stdin w)).
Qed.

(** X2: the script never writes to both streams. When it has written
    anything to standard output the run ends with status 0 and the script has
    written no diagnostic; when it has written a diagnostic the run ends with
    status 1 and nothing is on standard output; and a run that ends with an
    uncaught exception has written nothing at all. *)
Theorem output_all_or_nothing w :
  (stdout (run w).2 ≠ [] →
   (run w).1 = Exited 0 ∧ stderr (run w).2 = [])
  ∧ (stderr (run w).2 ≠ [] →
     (run w).1 = Exited 1 ∧ stdout (run w).2 = [])
  ∧ (∀ e, (run w).1 = Uncaught e →
       stdout (run w).2 = [] ∧ stderr (run w).2 = []).
Proof.
  rewrite run_cases. destruct (strip (stdin w)) as [|c raw] eqn:Hraw.
  { by split_and!. }
  destruct (langextract w) as [lx|]; [|by split_and!].
  cbn zeta. destruct (lx _ _) as [result|msg| |code]; [|by split_and!..].
  destruct (flatten_extractions _) as [out|e]; [|by split_and!].
  unfold written_or_refused. by destruct (stdout_encodes w _); split_and!.
Qed.

(** X3: a run calls the engine at most once, and not at all exactly when the
    input is blank or [langextract] is missing. The text of the call is never
    empty, never longer than 200,000 characters, and starts with a character
    that is not whitespace. *)
Theorem engine_called_at_most_once w :
  (calls (run w).2 = [] ↔ strip (stdin w) = [] ∨ langextract w = None)
  ∧ (length (calls (run w).2) ≤ 1)%nat
  ∧ ∀ kwargs, kwargs ∈ calls (run w).2 →
      len (text_or_documents kwargs) ≤ 200000
      ∧ ∃ c rest, text_or_documents kwargs = c :: rest ∧ isspace c = false.
Proof.
  assert (calls (run w).2 =
    match strip (stdin w), langextract w with
    | _ :: _, Some _ => [build_kwargs (strip (stdin w)) (environ w)]
    | _, _ => []
    end) as Hcalls.
  { rewrite run_cases. destruct (strip (stdin w)) as [|c raw]; [done|].
    destruct (langextract w) as [lx|]; [|done].
    cbn zeta. destruct (lx _ _) as [result|msg| |code]; [|done..].
    destruct (flatten_extractions _); [|done].
    unfold written_or_refused. by destruct (stdout_encodes w _). }
  rewrite Hcalls. split_and!.
  - destruct (strip (stdin w)), (langextract w); intuition congruence.
  - destruct (strip (stdin w)), (langextract w); simpl; lia.
  - intros kwargs Hin.
    destruct (strip (stdin w)) as [|c raw] eqn:Hraw; [by apply elem_of_nil in Hin|].
    destruct (langextract w); [|by apply elem_of_nil in Hin].
    apply list_elem_of_singleton in Hin as ->. rewrite build_kwargs_text.
    split; [rewrite len_slice_to; lia|].
    exists c, (slice_to (N.pred 200000) raw). split; [done|].
    by apply (strip_head (stdin w) c raw).
Qed.

(** X4: when the engine returns a list of documents, the run is the run on
    the first of them alone, whatever follows it in the list; when it returns
    an empty list, the driver hands the first 50,000 characters of the
    stripped input to standard output, which writes them, with status 0, or
    cannot encode them. *)
Theorem only_first_document_used w lx lx' :
  langextract w = Some lx →
  (∀ d ds,
     lx 0%nat (build_kwargs (strip (stdin w)) (environ w))
       = Returns (DocumentList (d :: ds)) →
     lx' 0%nat (build_kwargs (strip (stdin w)) (environ w))
       = Returns (OneDocument d) →
     run w = run (with_engine lx' w))
  ∧ (strip (stdin w) ≠ [] →
     lx 0%nat (build_kwargs (strip (stdin w)) (environ w))
       = Returns (DocumentList []) →
     run w =
       if stdout_encodes w (slice_to 50000 (strip (stdin w)))
       then (Exited 0,
             Proc (slice_to 50000 (strip (stdin w))) []
                  [build_kwargs (strip (stdin w)) (environ w)])
       else (Uncaught UnicodeEncodeError,
             Proc [] [] [build_kwargs (strip (stdin w)) (environ w)])).
Proof.
  intros Hlx. split.
  - intros d ds Hres Hres'. rewrite !run_cases. simpl.
    destruct (strip (stdin w)) as [|c raw]; [done|].
    rewrite Hlx. cbn zeta. by rewrite Hres, Hres'.
  - intros Hraw Hres. by rewrite (run_returned w lx _ Hraw Hlx Hres).
Qed.

(** * Further properties of the normaliser *)

Lemma group_step_present by_class e :
  text_present e = true →
  group_step by_class e
  = Ok (match text_of e with
        | [] => by_class
        | _ :: _ => setdefault_append (key_of e) (text_of e) by_class
        end).
Proof.
  unfold text_present, group_step, text_of, key_of, getattr.
  destruct (extraction_text e) as [[|s]|]; [done|..]; simpl;
    by destruct (strip _).
Qed.

Lemma group_step_absent by_class e :
  text_present e = false → group_step by_class e = Raise AttributeError.
Proof.
  unfold text_present, group_step, getattr.
  by destruct (extraction_text e) as [[|s]|].
Qed.

Lemma group_loop_app es1 es2 : ∀ by_class,
  group_loop by_class (es1 ++ es2)
  = by_class' ← group_loop by_class es1; group_loop by_class' es2.
Proof.
  induction es1 as [|e es1 IH]; intros m; simpl; [done|].
  destruct (group_step m e) as [m'|x]; [|done]. rewrite !bind_Ok. apply IH.
Qed.

Lemma group_loop_raises es : ∀ by_class,
  forallb text_present es = false →
  group_loop by_class es = Raise AttributeError.
Proof.
  induction es as [|e es IH]; intros m; simpl; [done|].
  destruct (text_present e) eqn:He; simpl.
  - intros Hes. rewrite group_step_present by done. rewrite bind_Ok. by apply IH.
  - intros _. by rewrite group_step_absent.
Qed.

Lemma items_of_cons k e es :
  items_of k (e :: es) =
    if decide (key_of e = k ∧ text_of e ≠ [])
    then text_of e :: items_of k es else items_of k es.
Proof.
  unfold items_of. rewrite filter_cons.
  destruct (decide (key_of e = k)) as [Hc|Hc].
  - rewrite fmap_cons, filter_cons.
    destruct (decide (text_of e ≠ [])) as [Ht|Ht].
    + by rewrite decide_True.
    + by rewrite decide_False by tauto.
  - by rewrite decide_False by tauto.
Qed.

(** The dictionary after the loop, for records of any class. *)
Lemma group_loop_present es : ∀ by_class,
  forallb text_present es = true →
  ∃ by_class',
    group_loop by_class es = Ok by_class'
    ∧ ∀ k, by_class' !! k = extend (by_class !! k) (items_of k es).
Proof.
  induction es as [|e es IH]; intros m Hes; simpl in *.
  { by exists m. }
  apply andb_true_iff in Hes as [He Hes].
  rewrite group_step_present, bind_Ok by done.
  destruct (text_of e) as [|a t] eqn:Ht.
  - destruct (IH m Hes) as (m' & -> & Hm'). exists m'. split; [done|].
    intros k. rewrite Hm', items_of_cons, Ht.
    by rewrite decide_False by (intros [_ ?]; done).
  - destruct (IH (setdefault_append (key_of e) (a :: t) m) Hes)
      as (m' & -> & Hm').
    exists m'. split; [done|].
    intros k. rewrite Hm', items_of_cons, Ht. unfold setdefault_append.
    destruct (decide (key_of e = k)) as [->|Hk].
    + rewrite lookup_insert_eq. rewrite decide_True by done.
      destruct (items_of k es); simpl; [done|].
      by rewrite <- app_assoc.
    + rewrite lookup_insert_ne by done.
      by rewrite decide_False by tauto.
Qed.

(** X5: a record whose text is a string, or absent, and is blank once
    trimmed leaves no trace: the output with it, wherever it stands and
    whatever its class, [None] included, is the output without it. *)
Theorem blank_record_ignored es1 e es2 :
  text_present e = true →
  text_of e = [] →
  flatten_extractions (AnnotatedDocument (Some (es1 ++ e :: es2)))
  = flatten_extractions (AnnotatedDocument (Some (es1 ++ es2))).
Proof.
  intros He Ht. rewrite !flatten_extractions_some.
  rewrite (group_loop_app es1 (e :: es2)), (group_loop_app es1 es2).
  destruct (group_loop ∅ es1) as [m|x]; [|done]. rewrite !bind_Ok. simpl.
  by rewrite group_step_present, Ht, bind_Ok by done.
Qed.

Lemma items_of_nonempty k es :
  items_of k es ≠ [] ↔ ∃ e, e ∈ es ∧ key_of e = k ∧ text_of e ≠ [].
Proof.
  split.
  - intros Hne. destruct (items_of k es) as [|t ts] eqn:Hi; [done|].
    assert (t ∈ items_of k es) as Hin by (rewrite Hi; left).
    unfold items_of in Hin. apply list_elem_of_filter in Hin as [Ht Hin].
    apply list_elem_of_fmap in Hin as (e & -> & He).
    apply list_elem_of_filter in He as [Hk He]. by exists e.
  - intros (e & He & Hk & Ht) Hnil.
    assert (text_of e ∈ items_of k es) as Hin.
    { unfold items_of. apply list_elem_of_filter. split; [done|].
      apply list_elem_of_fmap. exists e. split; [done|].
      by apply list_elem_of_filter. }
    rewrite Hnil in Hin. by apply elem_of_nil in Hin.
Qed.

Lemma existsb_elem_of {A} (f : A → bool) (l : list A) :
  existsb f l = true ↔ ∃ x, x ∈ l ∧ f x = true.
Proof.
  rewrite existsb_exists. by setoid_rewrite list_elem_of_In.
Qed.

Lemma forallb_elem_of {A} (f : A → bool) (l : list A) :
  forallb f l = true ↔ ∀ x, x ∈ l → f x = true.
Proof.
  rewrite forallb_forall. by setoid_rewrite list_elem_of_In.
Qed.

Lemma blank_false e : blank e = false ↔ text_of e ≠ [].
Proof. unfold blank. by rewrite bool_decide_eq_false. Qed.

Lemma is_str_false k : is_str k = false ↔ k = PyNone.
Proof. by destruct k. Qed.

(** With the key [None] in the dictionary, sorting or the header fails. *)
Lemma none_key_raises (by_class : gmap pyval (list str)) v :
  by_class !! PyNone = Some v →
  (items ← sorted_items by_class;
   parts ← other_parts (canonical_parts by_class) items;
   Ok (match parts with [] => [] | _ => join (nl ++ nl) parts end))
  = Raise (if bool_decide (length (map_to_list by_class) ≤ 1)%nat
           then AttributeError else TypeError).
Proof.
  intros Hv. apply elem_of_map_to_list in Hv.
  unfold sorted_items, keys_comparable.
  assert (forallb (λ kv : pyval * list str, is_str kv.1)
            (map_to_list by_class) = false) as ->.
  { apply not_true_is_false. rewrite forallb_elem_of.
    intros Hall. by specialize (Hall _ Hv). }
  simpl. case_bool_decide as Hlen; [|done].
  destruct (map_to_list by_class) as [|x [|y l]]; simpl in Hlen; [|..].
  - by apply elem_of_nil in Hv.
  - apply list_elem_of_singleton in Hv as <-. done.
  - lia.
Qed.

(** How the function fails on records with a text that keeps the key
    [None]. *)
Lemma flatten_extractions_none_key es :
  forallb text_present es = true →
  existsb keeps_none_key es = true →
  flatten_extractions (AnnotatedDocument (Some es))
  = Raise (if existsb keeps_str_key es then TypeError else AttributeError).
Proof.
  intros Hes Hnone. rewrite flatten_extractions_some.
  destruct (group_loop_present es ∅ Hes) as (m & -> & Hm0). rewrite bind_Ok.
  assert (∀ k, m !! k = extend None (items_of k es)) as Hm.
  { intros k. by rewrite Hm0, lookup_empty. }
  clear Hm0.
  apply existsb_elem_of in Hnone as (e & He & Hkeep).
  apply andb_true_iff in Hkeep as [Hk Ht].
  apply negb_true_iff in Hk, Ht. apply is_str_false in Hk. apply blank_false in Ht.
  assert (∃ v, m !! PyNone = Some v) as [v Hv].
  { rewrite Hm, extend_None. destruct (items_of PyNone es) eqn:Hi; [|eauto].
    exfalso. eapply items_of_nonempty; [|done]. eauto. }
  rewrite (none_key_raises m v Hv).
  destruct (existsb keeps_str_key es) eqn:Hstr.
  - rewrite bool_decide_eq_false_2; [done|]. intros Hlen.
    apply existsb_elem_of in Hstr as (e' & He' & Hkeep').
    apply andb_true_iff in Hkeep' as [Hk' Ht'].
    apply negb_true_iff, blank_false in Ht'.
    destruct (key_of e') as [|c] eqn:Hc; [done|].
    assert (∃ v', m !! PyStr c = Some v') as [v' Hv'].
    { rewrite Hm, extend_None. destruct (items_of (PyStr c) es) eqn:Hi; [|eauto].
      exfalso. eapply items_of_nonempty; [|done]. eauto. }
    apply elem_of_map_to_list in Hv, Hv'.
    destruct (map_to_list m) as [|x [|y l]]; simpl in Hlen; [| |lia].
    + by apply elem_of_nil in Hv.
    + apply list_elem_of_singleton in Hv, Hv'. congruence.
  - rewrite bool_decide_eq_true_2; [done|].
    assert (m = {[PyNone := v]}) as ->.
    { apply map_eq. intros k. destruct k as [|c].
      - by rewrite Hv, lookup_singleton_eq.
      - rewrite lookup_singleton_ne by done. rewrite Hm, extend_None.
        destruct (items_of (PyStr c) es) eqn:Hi; [done|]. exfalso.
        assert (items_of (PyStr c) es ≠ []) as Hne by by rewrite Hi.
        apply items_of_nonempty in Hne as (e' & He' & Hk' & Ht').
        apply not_true_iff_false in Hstr. apply Hstr.
        apply existsb_elem_of. exists e'. split; [done|].
        unfold keeps_str_key. rewrite Hk'. simpl.
        by apply negb_true_iff, blank_false. }
    by rewrite map_to_list_singleton.
Qed.

Lemma group_loop_acceptable es : ∀ by_class,
  forallb acceptable es = true →
  group_loop by_class es
  = group_loop by_class (filter (λ e, well_typed e = true) es).
Proof.
  induction es as [|e es IH]; intros m Hes; simpl in *; [done|].
  apply andb_true_iff in Hes as [He Hes]. rewrite filter_cons.
  destruct (decide (well_typed e = true)) as [Hwt|Hwt]; simpl.
  - destruct (group_step m e); [|done]. rewrite !bind_Ok. by apply IH.
  - unfold acceptable in He. apply andb_true_iff in He as [Ht Hk].
    rewrite group_step_present by done.
    assert (text_of e = []) as ->.
    { apply orb_true_iff in Hk as [Hk|Hk]; [|by apply bool_decide_eq_true in Hk].
      exfalso. apply Hwt. unfold well_typed. apply andb_true_iff. split; [|done].
      unfold key_of, getattr in Hk. by destruct (extraction_class e) as [[|s]|]. }
    rewrite bind_Ok. by apply IH.
Qed.

Lemma well_typed_filter es :
  forallb well_typed (filter (λ e, well_typed e = true) es) = true.
Proof.
  apply forallb_elem_of. intros e He. by apply list_elem_of_filter in He as [? _].
Qed.

Lemma flatten_extractions_acceptable es :
  forallb acceptable es = true →
  flatten_extractions (AnnotatedDocument (Some es))
  = Ok (normalize (filter (λ e, well_typed e = true) es)).
Proof.
  intros Hes.
  rewrite <- (flatten_extractions_normalize _ (well_typed_filter es)).
  rewrite !flatten_extractions_some. by rewrite (group_loop_acceptable es).
Qed.

Lemma flatten_extractions_absent_text es :
  forallb text_present es = false →
  flatten_extractions (AnnotatedDocument (Some es)) = Raise AttributeError.
Proof.
  intros Hes. rewrite flatten_extractions_some.
  by rewrite group_loop_raises.
Qed.

(** X6: the function returns exactly on the lists of acceptable records:
    every text is a string or absent, and a record whose class is [None]
    has a blank text. It then returns what it returns on the well-typed
    records of the list; on any other list it raises. *)
Theorem flatten_extractions_returns_iff es :
  ((∃ out, flatten_extractions (AnnotatedDocument (Some es)) = Ok out)
   ↔ forallb acceptable es = true)
  ∧ (forallb acceptable es = true →
     flatten_extractions (AnnotatedDocument (Some es))
     = Ok (normalize (filter (λ e, well_typed e = true) es)))
  ∧ (forallb acceptable es = false →
     ∃ x, flatten_extractions (AnnotatedDocument (Some es)) = Raise x).
Proof.
  assert (forallb acceptable es = false →
          ∃ x, flatten_extractions (AnnotatedDocument (Some es)) = Raise x)
    as Hraise.
  { intros Hno. destruct (forallb text_present es) eqn:Htext.
    - rewrite flatten_extractions_none_key; [eauto|done|].
      apply not_true_iff_false in Hno. apply not_false_iff_true. intros Hnone.
      apply Hno. apply forallb_elem_of. intros e He.
      unfold acceptable. apply andb_true_iff. split.
      { by apply (proj1 (forallb_elem_of _ _) Htext). }
      destruct (is_str (key_of e)) eqn:Hk; [done|].
      destruct (blank e) eqn:Hb; [done|]. exfalso.
      apply not_true_iff_false in Hnone. apply Hnone.
      apply existsb_elem_of. exists e. split; [done|].
      unfold keeps_none_key. by rewrite Hk, Hb.
    - rewrite flatten_extractions_absent_text by done. eauto. }
  split_and!; [|apply flatten_extractions_acceptable|done].
  split.
  - intros [out Hout]. destruct (forallb acceptable es) eqn:Hacc; [done|].
    destruct (Hraise eq_refl) as [x Hx]. congruence.
  - intros Hacc. rewrite flatten_extractions_acceptable by done. eauto.
Qed.

(** X7: which exception. A text that is [None] raises [AttributeError] at
    [strip], whatever else the list holds. With every text a string or
    absent, a record of class [None] that keeps a text raises [TypeError]
    out of [sorted] when a record with a string class keeps a text too, and
    [AttributeError] out of [replace] when none does. *)
Theorem flatten_extractions_exception es :
  (forallb text_present es = false →
   flatten_extractions (AnnotatedDocument (Some es)) = Raise AttributeError)
  ∧ (forallb text_present es = true →
     existsb keeps_none_key es = true →
     flatten_extractions (AnnotatedDocument (Some es))
     = Raise (if existsb keeps_str_key es then TypeError else AttributeError)).
Proof.
  split; [apply flatten_extractions_absent_text|].
  apply flatten_extractions_none_key.
Qed.

Lemma section_order_nil es :
  section_order es = [] ↔ forallb blank es = true.
Proof.
  rewrite forallb_elem_of. split.
  - intros Hnil e He. apply bool_decide_eq_true. apply dec_stable. intros Ht.
    assert (label_of e ∈ section_order es) as Hin.
    { apply elem_of_section_order, elem_of_present_labels.
      unfold present_labels. apply elem_of_remove_dups, list_elem_of_fmap.
      exists e. split; [done|]. by apply list_elem_of_filter. }
    rewrite Hnil in Hin. by apply elem_of_nil in Hin.
  - intros Hblank. destruct (section_order es) as [|c l] eqn:Hs; [done|].
    assert (c ∈ section_order es) as Hin by (rewrite Hs; left).
    apply elem_of_section_order, elem_of_present_labels in Hin.
    unfold present_labels in Hin.
    apply elem_of_remove_dups, list_elem_of_fmap in Hin as (e & _ & He).
    apply list_elem_of_filter in He as [Ht He].
    specialize (Hblank e He). by apply bool_decide_eq_true in Hblank.
Qed.

Lemma join_cons_prefix sep x l : ∃ rest, join sep (x :: l) = x ++ rest.
Proof. destruct l; simpl; [exists []; by rewrite app_nil_r | eauto]. Qed.

(** The normalised text is blank only when it is empty, and it is empty
    only when no record keeps a text. *)
Lemma normalize_blank_iff es :
  strip (normalize es) = [] ↔ forallb blank es = true.
Proof.
  rewrite <- section_order_nil. unfold normalize. split.
  - intros Hs. destruct (section_order es) as [|c l]; [done|]. exfalso.
    rewrite fmap_cons in Hs.
    destruct (join_cons_prefix (nl ++ nl) (section_text es c)
                (section_text es <$> l)) as [rest Hj].
    rewrite Hj in Hs. apply strip_nil_iff in Hs. unfold section_text in Hs.
    rewrite <- !app_assoc, !forallb_app in Hs.
    apply andb_true_iff in Hs as [_ Hs]. by apply andb_true_iff in Hs as [Hs _].
  - by intros ->.
Qed.

(** X8: the raw text is printed exactly when nothing was extracted. On a
    non-blank input for which the engine returns a document of well-typed
    records, the driver hands to standard output the normalised text as soon
    as one record keeps a text, and the first 50,000 characters of the
    stripped input when none does; the stream writes the text, with status 0,
    or cannot encode it. The normalised text itself is never blank without
    being empty. *)
Theorem fallback_iff_nothing_kept w lx result es :
  strip (stdin w) ≠ [] →
  langextract w = Some lx →
  lx 0%nat (build_kwargs (strip (stdin w)) (environ w)) = Returns result →
  first_document result = AnnotatedDocument (Some es) →
  forallb well_typed es = true →
  (∃ text,
     text = (if forallb blank es then slice_to 50000 (strip (stdin w))
             else normalize es)
     ∧ run w =
         if stdout_encodes w text
         then (Exited 0,
               Proc text [] [build_kwargs (strip (stdin w)) (environ w)])
         else (Uncaught UnicodeEncodeError,
               Proc [] [] [build_kwargs (strip (stdin w)) (environ w)]))
  ∧ (normalize es = [] ↔ forallb blank es = true)
  ∧ (strip (normalize es) = [] ↔ forallb blank es = true).
Proof.
  intros Hraw Hlx Hres Hdoc Hwt. split_and!.
  - eexists. split; [done|].
    rewrite (run_returned w lx result) by done. rewrite Hdoc.
    rewrite flatten_extractions_normalize by done.
    unfold written_or_refused, output_text.
    destruct (forallb blank es) eqn:Hb.
    + apply normalize_blank_iff in Hb. by rewrite Hb.
    + destruct (strip (normalize es)) eqn:Hs; [|done].
      apply normalize_blank_iff in Hs. congruence.
  - rewrite <- normalize_blank_iff. split; [by intros ->|].
    intros Hs. apply normalize_blank_iff, section_order_nil in Hs.
    unfold normalize. by rewrite Hs.
  - apply normalize_blank_iff.
Qed.

Lemma list_bind_ext_elem {A B} (f g : A → list B) (l : list A) :
  (∀ x, x ∈ l → f x = g x) → l ≫= f = l ≫= g.
Proof.
  induction l as [|x l IH]; intros Hfg; [done|].
  rewrite !bind_cons. rewrite Hfg by left. f_equal.
  apply IH. intros y Hy. apply Hfg. by right.
Qed.

Lemma group_of_other c c' es :
  c' ≠ c →
  group_of c' (filter (λ e, label_of e ≠ c) es) = group_of c' es.
Proof.
  intros Hc. unfold group_of. do 2 f_equal.
  rewrite list_filter_filter. apply list_filter_iff. intros e.
  split; [tauto | intros ->; tauto].
Qed.

(** The groups of a list of labels partition the texts kept. *)
Lemma groups_partition L : ∀ es,
  NoDup L →
  (∀ e, e ∈ es → text_of e ≠ [] → label_of e ∈ L) →
  (L ≫= λ c, group_of c es) ≡ₚ filter (λ t, t ≠ []) (text_of <$> es).
Proof.
  induction L as [|c L IH]; intros es Hnd Hlabels.
  - destruct (filter _ (text_of <$> es)) as [|t ts] eqn:Hf; [done|]. exfalso.
    assert (t ∈ filter (λ t, t ≠ []) (text_of <$> es)) as Hin
      by (rewrite Hf; left).
    apply list_elem_of_filter in Hin as [Ht Hin].
    apply list_elem_of_fmap in Hin as (e & -> & He).
    specialize (Hlabels e He Ht). by apply elem_of_nil in Hlabels.
  - apply NoDup_cons in Hnd as [Hc Hnd]. rewrite bind_cons.
    rewrite (list_bind_ext_elem _
      (λ c', group_of c' (filter (λ e, label_of e ≠ c) es))).
    2:{ intros c' Hc'. rewrite group_of_other; [done|]. by intros ->. }
    rewrite IH; [|done|].
    + unfold group_of at 1. rewrite <- filter_app, <- fmap_app.
      by rewrite (filter_app_complement (λ e, label_of e = c) es).
    + intros e He Ht. apply list_elem_of_filter in He as [Hne He].
      specialize (Hlabels e He Ht). by apply elem_of_cons in Hlabels as [?|?].
Qed.

(** X9: no text is lost and none is repeated. On well-typed records the
    items of the output, section after section, are the non-empty trimmed
    texts of the input rearranged: as many items as records that keep a
    text, duplicates included. *)
Theorem texts_conserved es :
  forallb well_typed es = true →
  flatten_extractions (AnnotatedDocument (Some es))
    = Ok (join (nl ++ nl) (section_text es <$> section_order es))
  ∧ (∀ c, section_text es c
          = section_title c ++ lit ":" ++ nl
            ++ join nl (section_lines c (group_of c es)))
  ∧ (∀ c, length (section_lines c (group_of c es)) = length (group_of c es))
  ∧ (section_order es ≫= λ c, group_of c es)
    ≡ₚ filter (λ t, t ≠ []) (text_of <$> es)
  ∧ length (section_order es ≫= λ c, group_of c es)
    = length (filter (λ e, text_of e ≠ []) es).
Proof.
  intros Hwt.
  assert ((section_order es ≫= λ c, group_of c es)
          ≡ₚ filter (λ t, t ≠ []) (text_of <$> es)) as Hperm.
  { apply groups_partition; [apply NoDup_section_order|].
    intros e He Ht. apply elem_of_section_order, elem_of_present_labels.
    unfold present_labels. apply elem_of_remove_dups, list_elem_of_fmap.
    exists e. split; [done|]. by apply list_elem_of_filter. }
  split_and!; [by apply flatten_extractions_normalize|done| |done|].
  - intros c. unfold section_lines. case_decide; [done|]. by rewrite length_fmap.
  - rewrite Hperm. clear. induction es as [|e es IH]; [done|].
    rewrite fmap_cons, !filter_cons.
    destruct (decide (text_of e ≠ [])); simpl; by rewrite IH.
Qed.

(** X10: the engine's first answer decides the run. Two engines that answer
    the first call alike give the same run, whatever they would answer to
    later calls. *)
Theorem first_answer_decides w lx lx' :
  lx 0%nat (build_kwargs (strip (stdin w)) (environ w))
  = lx' 0%nat (build_kwargs (strip (stdin w)) (environ w)) →
  run (with_engine lx w) = run (with_engine lx' w).
Proof.
  intros Hfirst. rewrite !run_cases. simpl.
  destruct (strip (stdin w)) as [|c raw]; [done|]. cbn zeta. by rewrite Hfirst.
Qed.

Lemma normalize_groups es es' :
  (∀ c, group_of c es = group_of c es') → normalize es = normalize es'.
Proof.
  intros Hg.
  assert (present_labels es ≡ₚ present_labels es') as Hp.
  { apply NoDup_Permutation; [apply NoDup_remove_dups..|].
    intros c. by rewrite !elem_of_present_labels, Hg. }
  assert (section_order es = section_order es') as Hs.
  { unfold section_order, extra_labels. f_equal.
    - apply list_filter_iff. intros c. by rewrite Hg.
    - apply merge_sort_permutation. by rewrite Hp. }
  unfold normalize. rewrite Hs. f_equal. apply list_fmap_ext.
  intros i c _. unfold section_text. by rewrite Hg.
Qed.

Lemma group_of_swap c es1 a b es2 :
  label_of a ≠ label_of b →
  group_of c (es1 ++ a :: b :: es2) = group_of c (es1 ++ b :: a :: es2).
Proof.
  intros Hab. unfold group_of. rewrite !filter_app, !filter_cons.
  destruct (decide (label_of a = c)), (decide (label_of b = c));
    try done; congruence.
Qed.

(** X11: the order of the records matters within a label only. On
    well-typed records, two lists with the same group for every label give
    the same output; so exchanging two neighbours with different labels
    changes nothing. *)
Theorem order_matters_within_label_only es es' :
  forallb well_typed es = true →
  forallb well_typed es' = true →
  ((∀ c, group_of c es = group_of c es') →
   flatten_extractions (AnnotatedDocument (Some es))
   = flatten_extractions (AnnotatedDocument (Some es')))
  ∧ (∀ es1 a b es2,
       es = es1 ++ a :: b :: es2 →
       label_of a ≠ label_of b →
       flatten_extractions (AnnotatedDocument (Some (es1 ++ b :: a :: es2)))
       = flatten_extractions (AnnotatedDocument (Some es))).
Proof.
  intros Hwt Hwt'. split.
  - intros Hg. rewrite !flatten_extractions_normalize by done.
    by rewrite (normalize_groups es es').
  - intros es1 a b es2 -> Hab.
    rewrite !flatten_extractions_normalize; [| done |].
    + f_equal. apply normalize_groups. intros c. by apply group_of_swap.
    + apply (well_typed_perm (es1 ++ a :: b :: es2)); [|done].
      apply Permutation_app_head, Permutation_swap.
Qed.

End model.

(** * The model at work

    Runs of the model on ASCII text, with [ascii_only] for character database
    and a standard output in strict UTF-8. On records whose labels are ASCII
    every database that is right about ASCII gives the same output
    ([flatten_extractions_ascii_only]). *)

Lemma title_case_ascii_only ucd s :
  ascii_faithful ucd →
  Forall (λ c, c < 128) s →
  title_case ucd s = title_case ascii_only s.
Proof.
  intros Hucd Hs.
  by rewrite !title_case_ascii by (done || apply ascii_only_faithful).
Qed.

Lemma normalize_ascii_only ucd es :
  ascii_faithful ucd →
  Forall (λ e, Forall (λ c, c < 128) (label_of e)) es →
  normalize ucd es = normalize ascii_only es.
Proof.
  intros Hucd Hes. unfold normalize. f_equal. apply list_fmap_ext.
  intros _ c Hc%list_elem_of_lookup_2. unfold section_text. f_equal.
  unfold section_title. repeat case_decide; try done.
  apply title_case_ascii_only; [done|]. apply replace_char_ascii; [lia|].
  apply elem_of_section_order in Hc.
  destruct (group_of c es) as [|t ts] eqn:Hg; [done|].
  assert (t ∈ group_of c es) as Ht by (rewrite Hg; left).
  unfold group_of in Ht.
  apply list_elem_of_filter in Ht as [_ Ht].
  apply list_elem_of_fmap in Ht as (e & _ & He).
  apply list_elem_of_filter in He as [<- He].
  rewrite Forall_forall in Hes. by apply Hes.
Qed.

(** What the function returns on well-typed records with ASCII labels does
    not depend on the database, as long as it is right about ASCII. *)
Lemma flatten_extractions_ascii_only ucd es :
  ascii_faithful ucd →
  forallb well_typed es = true →
  Forall (λ e, Forall (λ c, c < 128) (label_of e)) es →
  flatten_extractions ucd (AnnotatedDocument (Some es))
  = flatten_extractions ascii_only (AnnotatedDocument (Some es)).
Proof.
  intros Hucd Hwt Hes. rewrite !flatten_extractions_normalize by done.
  f_equal. by apply normalize_ascii_only.
Qed.

Lemma utf8_strict_prefix s1 s2 :
  s1 `prefix_of` s2 → utf8_strict s2 = true → utf8_strict s1 = true.
Proof.
  intros [k ->]. unfold utf8_strict. rewrite forallb_app.
  by intros [? _]%andb_prop.
Qed.

Lemma empty_input_exits_witness :
  let w := World (lit "  ") ∅ None utf8_strict in
  run ascii_only w = (Exited 1, Proc [] no_input_message [])
  ∧ stdout (run ascii_only w).2 = []
  ∧ stderr (run ascii_only w).2 ≠ []
  ∧ (run ascii_only w).1 ≠ Exited 0.
Proof. intros w. apply (empty_input_exits ascii_only w). reflexivity. Defined.

Lemma extraction_failure_exits_witness :
  let w := World (lit "some page") ∅ (Some flaky_engine) utf8_strict in
  run ascii_only w = (Exited 1,
           Proc [] (lit "extract_structured: extraction failed: timeout" ++ nl)
                [build_kwargs (lit "some page") ∅])
  ∧ stdout (run ascii_only w).2 = []
  ∧ length (calls (run ascii_only w).2) = 1%nat.
Proof.
  intros w.
  apply (extraction_failure_exits ascii_only w flaky_engine (lit "timeout"));
    [by vm_compute | reflexivity | reflexivity].
Defined.

Lemma input_truncated_witness :
  let w := World (lit " short text ") ∅ (Some blank_engine) utf8_strict in
  ∃ kwargs,
    calls (run ascii_only w).2 = [kwargs]
    ∧ text_or_documents kwargs = slice_to 200000 (strip (stdin w))
    ∧ text_or_documents kwargs `prefix_of` strip (stdin w)
    ∧ len (text_or_documents kwargs) ≤ 200000
    ∧ (len (strip (stdin w)) ≤ 200000 →
       text_or_documents kwargs = strip (stdin w))
    ∧ (200000 < len (strip (stdin w)) →
       len (text_or_documents kwargs) = 200000).
Proof.
  intros w.
  apply (input_truncated ascii_only w blank_engine);
    [by vm_compute | reflexivity].
Defined.

(** A text of 200,001 characters is sent without its last one. *)
Example long_input_truncated :
  len (N.iter 200001 (cons 97) []) = 200001
  ∧ len (text_or_documents (build_kwargs (N.iter 200001 (cons 97) []) ∅))
    = 200000.
Proof. split; vm_compute; reflexivity. Qed.

Lemma blank_output_falls_back_witness :
  let w := World long_page ∅ (Some blank_engine) utf8_strict in
  ∃ text,
    text `prefix_of` strip long_page
    ∧ len (strip long_page) = 50001
    ∧ len text = 50000
    ∧ run ascii_only w
      = (Exited 0, Proc text [] [build_kwargs (strip long_page) ∅]).
Proof.
  intros w.
  assert (len (strip long_page) = 50001) as Hlen by (by vm_compute).
  destruct (blank_output_falls_back ascii_only w blank_engine
    (OneDocument (AnnotatedDocument (Some
      [Extraction (Some (PyStr (lit "fact"))) (Some (PyStr (lit "   "))) []]))))
    as [Hfallback _].
  - change (stdin w) with long_page. intros Hnil.
    rewrite Hnil in Hlen. discriminate Hlen.
  - reflexivity.
  - reflexivity.
  - destruct (Hfallback [] eq_refl eq_refl)
      as (text & Hprefix & _ & Hcut & _ & Hrun & _).
    change (stdin w) with long_page in *.
    change (environ w) with (∅ : gmap str str) in *.
    exists text. split_and!.
    + exact Hprefix.
    + exact Hlen.
    + apply Hcut. rewrite Hlen. reflexivity.
    + apply Hrun. change (utf8_strict text = true).
      apply (utf8_strict_prefix text (strip long_page) Hprefix).
      by vm_compute.
Defined.

(** C4, as worded, fails: the engine returns, a record's text is [None], the
    normaliser raises [AttributeError], nobody catches it and nothing is
    written, whatever the character database. *)
Lemma malformed_result_writes_nothing :
  let w := World (lit "a page") ∅ (Some malformed_engine) utf8_strict in
  strip (stdin w) ≠ []
  ∧ malformed_engine 0%nat (build_kwargs (strip (stdin w)) (environ w))
    = Returns (OneDocument malformed_document)
  ∧ (∀ ucd, run ucd w = (Uncaught AttributeError,
                         Proc [] [] [build_kwargs (lit "a page") ∅]))
  ∧ (∀ ucd, stdout (run ucd w).2 = [])
  ∧ ¬ (∀ ucd w lx result,
         strip (stdin w) ≠ [] →
         langextract w = Some lx →
         lx 0%nat (build_kwargs (strip (stdin w)) (environ w))
           = Returns result →
         stdout (run ucd w).2 ≠ []).
Proof.
  intros w.
  assert (∀ ucd, run ucd w = (Uncaught AttributeError,
                              Proc [] [] [build_kwargs (lit "a page") ∅]))
    as Hrun by (intros ucd; by rewrite run_cases).
  split_and!; [by vm_compute | reflexivity | exact Hrun | |].
  - intros ucd. by rewrite Hrun.
  - intros Hclaim.
    apply (Hclaim ascii_only w malformed_engine
             (OneDocument malformed_document));
      [by vm_compute | reflexivity | reflexivity | by rewrite Hrun].
Qed.

(** With a letter beyond ASCII: whatever else the database holds, if it is
    right about ASCII and knows the capital of e acute (233, 201), the label
    "\u00e9lan_vital" is headed "\u00c9lan Vital:". *)
Example elan_vital ucd :
  ascii_faithful ucd →
  is_cased ucd 233 = true →
  to_title_full ucd 233 = [201] →
  header ucd (233 :: lit "lan_vital") = 201 :: lit "lan Vital:".
Proof.
  intros Hucd Hcased Htitle. unfold header, title.
  assert (replace_char 95 32 (233 :: lit "lan_vital")
          = [233; 108; 97; 110; 32; 118; 105; 116; 97; 108]) as ->
    by (by vm_compute).
  cbn [title_from]. unfold lower. rewrite Hcased, Htitle.
  repeat match goal with
  | |- context [is_cased ucd ?c] => rewrite (proj1 (Hucd c eq_refl))
  | |- context [to_title_full ucd ?c] =>
      rewrite (proj1 (proj2 (Hucd c eq_refl)))
  | |- context [to_lower_full ucd ?c] =>
      rewrite (proj2 (proj2 (Hucd c eq_refl)))
  end.
  by vm_compute.
Qed.

(** A text that standard output cannot encode: the write raises and nothing
    is written. *)
Example lone_surrogate_refused :
  run ascii_only (World (lit "a page") ∅ (Some surrogate_engine) utf8_strict)
  = (Uncaught UnicodeEncodeError, Proc [] [] [build_kwargs (lit "a page") ∅]).
Proof. by vm_compute. Qed.

(** C3, as worded, fails: were the winner the first value that is non-empty
    once trimmed, a key in either variable would select the hosted model.
    Here the second variable holds a key, the first only blanks; the first is
    taken because it is a non-empty string, is trimmed to nothing, and the
    local backend is selected. *)
Lemma blank_first_variable_hides_second :
  shadowing_environ !! LANGEXTRACT_API_KEY = Some (lit "  ")
  ∧ shadowing_environ !! GOOGLE_API_KEY = Some (lit "secret")
  ∧ __get_env_key shadowing_environ = []
  ∧ build_kwargs (lit "text") shadowing_environ = local_kwargs (lit "text")
  ∧ ¬ (∀ raw env v,
         env !! LANGEXTRACT_API_KEY = Some v ∨ env !! GOOGLE_API_KEY = Some v →
         strip v ≠ [] →
         model_id (build_kwargs raw env) = lit "gemini-2.5-flash").
Proof.
  split_and!; try by vm_compute.
  intros Hclaim.
  specialize (Hclaim (lit "text") shadowing_environ (lit "secret")).
  by vm_compute in Hclaim; specialize (Hclaim (or_intror eq_refl) ltac:(done)).
Qed.

Lemma backend_selection_witness :
  let env : gmap str str := <[GOOGLE_API_KEY := lit " secret "]> ∅ in
  __get_env_key env = lit "secret"
  ∧ build_kwargs (lit "text") env = hosted_kwargs (lit "text")
  ∧ __get_env_key ∅ = []
  ∧ build_kwargs (lit "text") ∅ = local_kwargs (lit "text").
Proof.
  intros env.
  destruct (backend_selection (lit "text") env) as (_ & Hsecond & _ & Hhosted & _).
  destruct (backend_selection (lit "text") ∅) as (_ & _ & Hnone & _ & Hlocal).
  assert (__get_env_key env = lit "secret") as Hkey.
  { apply (Hsecond (or_introl eq_refl) (lit " secret ") eq_refl). }
  assert (__get_env_key ∅ = []) as Hno.
  { apply (Hnone (or_introl eq_refl) eq_refl). }
  split_and!; [exact Hkey | | exact Hno | exact (Hlocal Hno)].
  apply Hhosted. rewrite Hkey. discriminate.
Defined.

(** C5, as worded, fails: a record whose [extraction_text] is [None] has no
    [strip] method to call, and the function raises. *)
Lemma flatten_extractions_raises :
  (∀ ucd, flatten_extractions ucd malformed_document = Raise AttributeError)
  ∧ ∀ ucd, ¬ (∀ d, ∃ out, flatten_extractions ucd d = Ok out).
Proof.
  split; [reflexivity|]. intros ucd Htotal.
  destruct (Htotal malformed_document) as [out Hout]. discriminate Hout.
Qed.

Lemma flatten_extractions_total_witness :
  let es := [Extraction None None (lit "Extraction()");
             Extraction (Some (PyStr (lit "note"))) None (lit "  ")] in
  flatten_extractions ascii_only (AnnotatedDocument (Some es))
  = flatten_extractions ascii_only (AnnotatedDocument (Some
      [record "fact" "Extraction()";
       Extraction (Some (PyStr (lit "note"))) (Some (PyStr (lit "  ")))
                  (lit "  ")]))
  ∧ ∃ out,
      flatten_extractions ascii_only (AnnotatedDocument (Some es)) = Ok out.
Proof.
  intros es.
  destruct (flatten_extractions_total ascii_only)
    as (_ & _ & _ & Htotal & Hdefaults & _).
  split; [exact (Hdefaults es) | apply Htotal; reflexivity].
Defined.

(** The record without attributes is listed as a fact, under its string
    form; the note whose string form is blank leaves no section. *)
Example defaults_output :
  flatten_extractions ascii_only (AnnotatedDocument (Some
    [Extraction None None (lit "Extraction()");
     Extraction (Some (PyStr (lit "note"))) None (lit "  ")]))
  = Ok (lit "Facts:" ++ nl ++ lit "- Extraction()").
Proof. by vm_compute. Qed.

Lemma section_order_fixed_witness :
  ∃ canon others,
    flatten_extractions ascii_only (AnnotatedDocument (Some mixed_records))
      = Ok (join (nl ++ nl)
              (section_text ascii_only mixed_records <$> canon ++ others))
    ∧ canon = [lit "summary"; lit "key_point"; lit "fact"]
    ∧ StronglySorted lexico others
    ∧ (lit "foo_bar" ∈ others)
    ∧ flatten_extractions ascii_only
        (AnnotatedDocument (Some (reverse mixed_records)))
      = Ok (join (nl ++ nl)
              (section_text ascii_only (reverse mixed_records)
                 <$> canon ++ others)).
Proof.
  destruct (section_order_fixed ascii_only mixed_records eq_refl)
    as (canon & others & Hflat & Hcanon & Hsorted & Hothers & Hperm & _).
  exists canon, others. split_and!.
  - exact Hflat.
  - rewrite Hcanon. by vm_compute.
  - exact Hsorted.
  - apply Hothers. split; [|by vm_compute].
    apply (bool_decide_unpack _). by vm_compute.
  - apply Hperm, reverse_Permutation.
Defined.

(** The two orders the specification gives as examples. *)
Example canonical_then_foo_bar :
  flatten_extractions ascii_only (AnnotatedDocument (Some mixed_records))
  = Ok (lit "Summary:" ++ nl ++ lit "a" ++ nl ++ nl
        ++ lit "Key points:" ++ nl ++ lit "- b" ++ nl ++ nl
        ++ lit "Facts:" ++ nl ++ lit "- c" ++ nl ++ nl
        ++ lit "Foo Bar:" ++ nl ++ lit "- d")
  ∧ flatten_extractions ascii_only
      (AnnotatedDocument (Some (reverse mixed_records)))
    = flatten_extractions ascii_only (AnnotatedDocument (Some mixed_records)).
Proof. split; by vm_compute. Qed.

Example alpha_then_zebra :
  flatten_extractions ascii_only
    (AnnotatedDocument (Some [record "zebra" "z"; record "alpha" "a"]))
  = Ok (lit "Alpha:" ++ nl ++ lit "- a" ++ nl ++ nl
        ++ lit "Zebra:" ++ nl ++ lit "- z").
Proof. by vm_compute. Qed.

Lemma sections_formatted_witness :
  let es := [record "fooBAR_baz" "d"; record "summary" "a"] in
  flatten_extractions ascii_only (AnnotatedDocument (Some es))
  = Ok (join (nl ++ nl) (section_text ascii_only es <$> section_order es))
  ∧ section_text ascii_only es (lit "fooBAR_baz")
    = lit "Foobar Baz:" ++ nl ++ lit "- d"
  ∧ length (title_case ascii_only (lit "fooBAR baz")) = 10%nat.
Proof.
  intros es.
  destruct (sections_formatted ascii_only es eq_refl)
    as (Hflat & _ & _ & _ & _ & _ & _ & Hascii & Hexample & _).
  split_and!.
  - exact Hflat.
  - rewrite (Hexample ascii_only_faithful). by vm_compute.
  - apply (Hascii ascii_only_faithful).
    apply (bool_decide_unpack _). by vm_compute.
Defined.

(** The header of a label in mixed case, in a complete output. *)
Example mixed_case_label :
  flatten_extractions ascii_only
    (AnnotatedDocument (Some [record "fooBAR_baz" "d"; record "summary" "a"]))
  = Ok (lit "Summary:" ++ nl ++ lit "a" ++ nl ++ nl
        ++ lit "Foobar Baz:" ++ nl ++ lit "- d").
Proof. by vm_compute. Qed.

(** The specification's run: "Hello world" on standard input, an engine that
    returns one fact. *)
Example hello_world_run :
  run ascii_only (World (lit "Hello world") ∅
         (Some (λ _ _, Returns (OneDocument (AnnotatedDocument (Some
            [record "fact" "Hello world"]))))) utf8_strict)
  = (Exited 0,
     Proc (lit "Facts:" ++ nl ++ lit "- Hello world") []
          [local_kwargs (lit "Hello world")]).
Proof. by vm_compute. Qed.

Lemma grouping_stable_witness :
  ∃ by_class,
    group_loop ∅ interleaved_records = Ok by_class
    ∧ by_class !! PyStr (lit "fact") = Some [lit "one"; lit "two"]
    ∧ by_class !! PyStr (lit "note") = None
    ∧ lit "note" ∉ section_order interleaved_records.
Proof.
  destruct (grouping_stable ascii_only interleaved_records eq_refl)
    as (by_class & Hloop & Hlookup & _ & _ & _ & Hsections & _).
  exists by_class. split_and!.
  - exact Hloop.
  - rewrite Hlookup. by vm_compute.
  - rewrite Hlookup. by vm_compute.
  - rewrite Hsections. intros Hne. apply Hne. by vm_compute.
Defined.

Lemma absent_class_is_fact_witness :
  flatten_extractions ascii_only (AnnotatedDocument (Some
    [record "summary" "s"; Extraction None (Some (PyStr (lit " loose "))) [];
     record "fact" "f"]))
  = flatten_extractions ascii_only (AnnotatedDocument (Some
    [record "summary" "s";
     Extraction (Some (PyStr (lit "fact"))) (Some (PyStr (lit " loose "))) [];
     record "fact" "f"])).
Proof.
  destruct (absent_class_is_fact ascii_only [record "summary" "s"]
    (Extraction None (Some (PyStr (lit " loose "))) [])
    [record "fact" "f"] eq_refl) as (_ & Hflat & _).
  exact Hflat.
Defined.

Example absent_class_output :
  flatten_extractions ascii_only (AnnotatedDocument (Some
    [record "summary" "s"; Extraction None (Some (PyStr (lit " loose "))) [];
     record "fact" "f"]))
  = Ok (lit "Summary:" ++ nl ++ lit "s" ++ nl ++ nl
        ++ lit "Facts:" ++ nl ++ lit "- loose" ++ nl ++ lit "- f").
Proof. by vm_compute. Qed.

Lemma missing_langextract_exits_witness :
  let w := World (lit "a page") ∅ None utf8_strict in
  run ascii_only w = (Exited 1, Proc [] not_installed_message []).
Proof.
  intros w.
  apply (missing_langextract_exits ascii_only w); [by vm_compute | reflexivity].
Defined.

Lemma engine_called_at_most_once_witness :
  let w := World (lit "  a page ") ∅ (Some flaky_engine) utf8_strict in
  (length (calls (run ascii_only w).2) ≤ 1)%nat
  ∧ ∃ c rest,
      text_or_documents (build_kwargs (lit "a page") ∅) = c :: rest
      ∧ isspace c = false.
Proof.
  intros w.
  destruct (engine_called_at_most_once ascii_only w) as (_ & Hlen & Htext).
  split; [exact Hlen|].
  apply (Htext (build_kwargs (lit "a page") ∅)). by vm_compute; left.
Defined.

Lemma only_first_document_used_witness :
  let docs := [AnnotatedDocument (Some [record "fact" "kept"]);
               AnnotatedDocument (Some [record "fact" "dropped"]);
               malformed_document] in
  let w := World (lit "a page") ∅ (Some (λ _ _, Returns (DocumentList docs)))
             utf8_strict in
  run ascii_only w
  = run ascii_only (with_engine
           (λ _ _, Returns (OneDocument
                     (AnnotatedDocument (Some [record "fact" "kept"])))) w).
Proof.
  intros docs w.
  destruct (only_first_document_used ascii_only w
    (λ _ _, Returns (DocumentList docs))
    (λ _ _, Returns (OneDocument
              (AnnotatedDocument (Some [record "fact" "kept"])))) eq_refl)
    as [Hfirst _].
  by eapply Hfirst.
Defined.

Lemma blank_record_ignored_witness :
  flatten_extractions ascii_only (AnnotatedDocument (Some
    ([record "fact" "a"]
       ++ Extraction (Some PyNone) (Some (PyStr (lit "  "))) [] :: [])))
  = flatten_extractions ascii_only
      (AnnotatedDocument (Some ([record "fact" "a"] ++ []))).
Proof.
  apply (blank_record_ignored ascii_only [record "fact" "a"]
           (Extraction (Some PyNone) (Some (PyStr (lit "  "))) []) []);
    reflexivity.
Defined.

Lemma flatten_extractions_returns_iff_witness :
  flatten_extractions ascii_only (AnnotatedDocument (Some
    [record "fact" "a"; Extraction (Some PyNone) None (lit "  ")]))
  = Ok (normalize ascii_only [record "fact" "a"]).
Proof.
  destruct (flatten_extractions_returns_iff ascii_only
    [record "fact" "a"; Extraction (Some PyNone) None (lit "  ")])
    as (_ & Hok & _).
  exact (Hok eq_refl).
Defined.

Lemma flatten_extractions_exception_witness :
  flatten_extractions ascii_only (AnnotatedDocument (Some
    [record "fact" "a"; Extraction (Some PyNone) (Some PyNone) []]))
  = Raise AttributeError
  ∧ flatten_extractions ascii_only (AnnotatedDocument (Some
      [record "note" "a"; Extraction (Some PyNone) None (lit "b")]))
    = Raise TypeError
  ∧ flatten_extractions ascii_only (AnnotatedDocument (Some
      [record "note" " "; Extraction (Some PyNone) None (lit "b")]))
    = Raise AttributeError.
Proof.
  split_and!.
  - apply (proj1 (flatten_extractions_exception ascii_only _)). reflexivity.
  - apply (proj2 (flatten_extractions_exception ascii_only
      [record "note" "a"; Extraction (Some PyNone) None (lit "b")]));
      reflexivity.
  - apply (proj2 (flatten_extractions_exception ascii_only
      [record "note" " "; Extraction (Some PyNone) None (lit "b")]));
      reflexivity.
Defined.

Lemma fallback_iff_nothing_kept_witness :
  let es := [record "fact" "  "; record "note" "kept"] in
  let w := World (lit " the page ") ∅
             (Some (λ _ _,
                Returns (DocumentList [AnnotatedDocument (Some es)])))
             utf8_strict in
  run ascii_only w
  = (Exited 0,
     Proc (lit "Note:" ++ nl ++ lit "- kept") []
          [build_kwargs (lit "the page") ∅])
  ∧ normalize ascii_only es ≠ [].
Proof.
  intros es w.
  destruct (fallback_iff_nothing_kept ascii_only w
    (λ _ _, Returns (DocumentList [AnnotatedDocument (Some es)]))
    (DocumentList [AnnotatedDocument (Some es)]) es)
    as ((text & -> & Hrun) & Hnil & _); [by vm_compute | reflexivity..|].
  split; [rewrite Hrun; by vm_compute|].
  intros Hempty. apply Hnil in Hempty. by vm_compute in Hempty.
Defined.

(** The engine is interrupted: the handler does not catch it, and nothing is
    written. *)
Example interrupted_run :
  run ascii_only
    (World (lit "a page") ∅ (Some (λ _ _, Interrupted)) utf8_strict)
  = (Uncaught KeyboardInterrupt, Proc [] [] [build_kwargs (lit "a page") ∅]).
Proof. by vm_compute. Qed.

Lemma output_all_or_nothing_witness :
  let w := World (lit "Hello world") ∅
             (Some (λ _ _, Returns (OneDocument (AnnotatedDocument (Some
                [record "fact" "Hello world"])))))
             utf8_strict in
  (run ascii_only w).1 = Exited 0 ∧ stderr (run ascii_only w).2 = [].
Proof.
  intros w. apply (proj1 (output_all_or_nothing ascii_only w)). by vm_compute.
Defined.

Lemma texts_conserved_witness :
  (section_order interleaved_records ≫= λ c, group_of c interleaved_records)
  ≡ₚ [lit "one"; lit "s"; lit "two"].
Proof.
  destruct (texts_conserved ascii_only interleaved_records eq_refl)
    as (_ & _ & _ & Hperm & _).
  rewrite Hperm. by vm_compute.
Defined.

Lemma first_answer_decides_witness :
  let w := World (lit "a page") ∅ None utf8_strict in
  run ascii_only (with_engine flaky_engine w)
  = run ascii_only (with_engine (λ _ _, Raises (lit "timeout")) w).
Proof.
  intros w.
  apply (first_answer_decides ascii_only w
           flaky_engine (λ _ _, Raises (lit "timeout"))).
  reflexivity.
Defined.

Lemma order_matters_within_label_only_witness :
  flatten_extractions ascii_only (AnnotatedDocument (Some
    ([] ++ record "fact" "f" :: record "summary" "s" :: [record "fact" "g"])))
  = flatten_extractions ascii_only (AnnotatedDocument (Some
    [record "summary" "s"; record "fact" "f"; record "fact" "g"])).
Proof.
  destruct (order_matters_within_label_only ascii_only
    [record "summary" "s"; record "fact" "f"; record "fact" "g"]
    [record "summary" "s"; record "fact" "f"; record "fact" "g"]
    eq_refl eq_refl) as [_ Hswap].
  apply (Hswap [] (record "summary" "s") (record "fact" "f")
           [record "fact" "g"] eq_refl).
  by vm_compute.
Defined.

(** * Properties of the export script *)

Module export_properties.
Import export_embedding_model.

(** ** The vocabulary file *)

Lemma insert_by_id_perm x l : insert_by_id x l ≡ₚ x :: l.
Proof.
  induction l as [|y l IH]; simpl; [done|].
  destruct (x.2 <=? y.2)%Z; [done|]. by rewrite IH, Permutation_swap.
Qed.

Lemma sorted_by_id_perm l : sorted_by_id l ≡ₚ l.
Proof.
  induction l as [|x l IH]; simpl; [done|]. by rewrite insert_by_id_perm, IH.
Qed.

Lemma insert_by_id_sorted x l :
  StronglySorted (λ a b : str * Z, (a.2 ≤ b.2)%Z) l →
  StronglySorted (λ a b : str * Z, (a.2 ≤ b.2)%Z) (insert_by_id x l).
Proof.
  induction 1 as [|y l Hl IH Hy]; simpl; [repeat constructor|].
  destruct (Z.leb_spec x.2 y.2) as [Hxy|Hxy].
  - constructor; [by constructor|]. constructor; [done|].
    eapply Forall_impl; [exact Hy|]. simpl. intros z Hz. lia.
  - constructor; [done|]. rewrite insert_by_id_perm.
    constructor; [lia | done].
Qed.

Lemma sorted_by_id_sorted l :
  StronglySorted (λ a b : str * Z, (a.2 ≤ b.2)%Z) (sorted_by_id l).
Proof.
  induction l as [|x l IH]; simpl; [constructor|]. by apply insert_by_id_sorted.
Qed.

Lemma insert_by_id_filter (i : Z) x l :
  filter (λ y : str * Z, y.2 = i) (insert_by_id x l)
  = filter (λ y : str * Z, y.2 = i) (x :: l).
Proof.
  induction l as [|y l IH]; simpl; [done|].
  destruct (Z.leb_spec x.2 y.2) as [Hxy|Hxy]; [done|].
  rewrite (filter_cons _ y), IH, !filter_cons.
  destruct (decide (y.2 = i)), (decide (x.2 = i)); try done. lia.
Qed.

Lemma sorted_by_id_filter (i : Z) l :
  filter (λ y : str * Z, y.2 = i) (sorted_by_id l)
  = filter (λ y : str * Z, y.2 = i) l.
Proof.
  induction l as [|x l IH]; simpl; [done|].
  by rewrite insert_by_id_filter, !filter_cons, IH.
Qed.

(** X12: the vocabulary file lists every token of the dictionary once per
    item, one per line, by ascending id; tokens that share an id stay in the
    order the dictionary has them. The message counts the items. *)
Theorem vocabulary_sorted_by_id file vocab evs :
  ∃ items,
    export_vocab file vocab evs
    = (inl (),
       evs ++ [Makedirs (dirname (OUTPUT_VOCAB file));
               WriteFile (OUTPUT_VOCAB file)
                 (concat ((λ token, token ++ nl) <$> items.*1));
               PrintLine ([9989] ++ lit " Saved vocabulary ("
                      ++ lit (pretty (N.of_nat (length vocab)))
                      ++ lit " tokens) to " ++ OUTPUT_VOCAB file)])
    ∧ items ≡ₚ vocab
    ∧ StronglySorted Z.le items.*2
    ∧ ∀ i : Z, filter (λ item : str * Z, item.2 = i) items
               = filter (λ item : str * Z, item.2 = i) vocab.
Proof.
  exists (sorted_by_id vocab). split_and!.
  - unfold export_vocab, print, emit, vocab_text.
    rewrite <- list_fmap_compose.
    rewrite (Permutation_length (sorted_by_id_perm vocab)).
    unfold mbind, script_bind. by rewrite <- !app_assoc.
  - apply sorted_by_id_perm.
  - apply (StronglySorted_fmap snd (λ a b : str * Z, (a.2 ≤ b.2)%Z)); [done|].
    apply sorted_by_id_sorted.
  - intros i. apply sorted_by_id_filter.
Qed.

Lemma seqZ_sorted k : ∀ m, StronglySorted Z.le (seqZ m (Z.of_nat k)).
Proof.
  induction k as [|k IH]; intros m; [constructor|].
  rewrite seqZ_cons by lia. replace (Z.pred (Z.of_nat (S k))) with (Z.of_nat k) by lia.
  constructor; [apply IH|]. apply Forall_forall. intros i Hi.
  apply elem_of_seqZ in Hi. lia.
Qed.

(** X13: when the ids of the vocabulary are 0, 1, ..., n-1, each once, the
    line number of a token in the file, counted from 0, is its id. *)
Theorem line_number_is_id vocab :
  vocab.*2 ≡ₚ seqZ 0 (Z.of_nat (length vocab)) →
  vocab_text (sorted_by_id vocab)
  = concat ((λ token, token ++ nl) <$> (sorted_by_id vocab).*1)
  ∧ length (sorted_by_id vocab).*1 = length vocab
  ∧ ∀ (k : nat) token,
      (sorted_by_id vocab).*1 !! k = Some token
      ↔ (token, Z.of_nat k) ∈ vocab.
Proof.
  intros Hids.
  assert ((sorted_by_id vocab).*2 = seqZ 0 (Z.of_nat (length vocab))) as Hsorted.
  { apply (StronglySorted_unique Z.le).
    - apply (StronglySorted_fmap snd (λ a b : str * Z, (a.2 ≤ b.2)%Z)); [done|].
      apply sorted_by_id_sorted.
    - apply seqZ_sorted.
    - by rewrite sorted_by_id_perm. }
  assert (∀ (k : nat) token id,
    sorted_by_id vocab !! k = Some (token, id) → id = Z.of_nat k) as Hid.
  { intros k token id Hk.
    assert ((sorted_by_id vocab).*2 !! k = Some id) as Hk2.
    { by rewrite list_lookup_fmap, Hk. }
    rewrite Hsorted in Hk2. apply lookup_seqZ in Hk2. lia. }
  split_and!.
  - unfold vocab_text. by rewrite <- list_fmap_compose.
  - by rewrite length_fmap, (Permutation_length (sorted_by_id_perm vocab)).
  - intros k token. rewrite list_lookup_fmap. split.
    + destruct (sorted_by_id vocab !! k) as [[t id]|] eqn:Hk; [|done].
      intros [= ->]. rewrite <- (sorted_by_id_perm vocab).
      rewrite <- (Hid k token id Hk). by eapply list_elem_of_lookup_2.
    + intros Hin. rewrite <- (sorted_by_id_perm vocab) in Hin.
      apply list_elem_of_lookup in Hin as [j Hj].
      pose proof (Hid j token _ Hj) as Hjk. apply Nat2Z.inj in Hjk as ->.
      by rewrite Hj.
Qed.

Lemma line_number_is_id_witness :
  let vocab := [(lit "[UNK]", 1%Z); (lit "the", 2%Z); (lit "[PAD]", 0%Z)] in
  (sorted_by_id vocab).*1 !! 1%nat = Some (lit "[UNK]")
  ∧ vocab_text (sorted_by_id vocab)
    = lit "[PAD]" ++ nl ++ lit "[UNK]" ++ nl ++ lit "the" ++ nl.
Proof.
  intros vocab.
  destruct (line_number_is_id vocab) as (_ & _ & Hline).
  { symmetry. apply (Permutation_cons_append [1%Z; 2%Z] 0%Z). }
  split; [|by vm_compute].
  apply (Hline 1%nat (lit "[UNK]")). left.
Defined.

(** ** The output paths *)

Lemma forallb_reverse {A} (f : A → bool) (l : list A) :
  forallb f (reverse l) = forallb f l.
Proof.
  apply eq_true_iff_eq. rewrite !forallb_elem_of.
  by setoid_rewrite elem_of_reverse.
Qed.

Lemma drop_while_all f l1 l2 :
  forallb f l1 = true → drop_while f (l1 ++ l2) = drop_while f l2.
Proof.
  induction l1 as [|c l1 IH]; simpl; [done|].
  destruct (f c); [exact IH | done].
Qed.

Lemma join_step_relative path b :
  startswith_sep b = false →
  join_step path b
  = path ++ (if bool_decide (path = []) || endswith_sep path
             then [] else [sep]) ++ b.
Proof.
  unfold join_step. intros ->.
  by destruct (bool_decide (path = []) || endswith_sep path).
Qed.

Lemma last_join_step path b c :
  startswith_sep b = false →
  last b = Some c → last (join_step path b) = Some c.
Proof.
  intros Hb Hc. rewrite join_step_relative by done.
  by rewrite !last_app, Hc.
Qed.

(** The directory of [x/b] is [x], when [x] does not end with a separator
    and [b] has none. *)
Lemma dirname_join_step x b d :
  last x = Some d → d ≠ sep →
  forallb (λ c, negb (c =? sep)) b = true →
  dirname (join_step x b) = x.
Proof.
  intros Hx Hd Hb.
  assert (startswith_sep b = false) as Hstart.
  { destruct b as [|c b]; [done|]. simpl in *.
    apply andb_true_iff in Hb as [Hc _]. by apply negb_true_iff in Hc. }
  assert ((d =? sep) = false) as Hd' by by apply N.eqb_neq.
  rewrite join_step_relative by done. unfold endswith_sep. rewrite Hx, Hd'.
  rewrite bool_decide_eq_false_2 by (by intros ->). simpl.
  apply last_Some in Hx as [x' ->].
  unfold dirname.
  rewrite reverse_app, reverse_cons, <- app_assoc.
  rewrite drop_while_all by by rewrite forallb_reverse.
  change (drop_while (λ c, negb (c =? sep)) ([sep] ++ reverse (x' ++ [d])))
    with (sep :: reverse (x' ++ [d])).
  rewrite reverse_cons, reverse_involutive.
  destruct ((x' ++ [d]) ++ [sep]) as [|c l] eqn:Hhead.
  { by destruct x'. }
  rewrite <- Hhead. clear Hhead.
  rewrite !forallb_app. simpl. rewrite Hd', andb_false_r. simpl.
  rewrite reverse_app.
  change (drop_while (λ c, c =? sep) (reverse [sep] ++ reverse (x' ++ [d])))
    with (drop_while (λ c, c =? sep) (reverse (x' ++ [d]))).
  rewrite reverse_app. simpl. rewrite Hd'.
  change (d :: reverse x') with (reverse [d] ++ reverse x').
  by rewrite <- reverse_app, reverse_involutive.
Qed.

Lemma join_step_prefix path b :
  startswith_sep b = false → path `prefix_of` join_step path b.
Proof.
  intros Hb. rewrite join_step_relative by done. by apply prefix_app_r.
Qed.

Lemma output_path_last file :
  last (OUTPUT_VOCAB file) = Some 116
  ∧ last (OUTPUT_MLMODEL file) = Some 108
  ∧ last (OUTPUT_MLPACKAGE file) = Some 101.
Proof.
  unfold OUTPUT_VOCAB, OUTPUT_MLMODEL, OUTPUT_MLPACKAGE, path_join. simpl.
  split_and!; by apply last_join_step.
Qed.

(** X14: wherever the script lies, each output file is below the repository
    root, the directory the script creates before writing a file is the
    directory of that file, and the three output paths differ from one
    another. *)
Theorem output_paths file :
  dirname (OUTPUT_VOCAB file)
    = path_join (REPO_ROOT file) [lit "KnowledgeCache"; lit "Resources"]
  ∧ dirname (OUTPUT_MLMODEL file)
    = path_join (REPO_ROOT file) [lit "KnowledgeCache"]
  ∧ REPO_ROOT file `prefix_of` OUTPUT_VOCAB file
  ∧ REPO_ROOT file `prefix_of` OUTPUT_MLMODEL file
  ∧ OUTPUT_VOCAB file ≠ OUTPUT_MLMODEL file
  ∧ OUTPUT_VOCAB file ≠ OUTPUT_MLPACKAGE file
  ∧ OUTPUT_MLMODEL file ≠ OUTPUT_MLPACKAGE file.
Proof.
  destruct (output_path_last file) as (Hvocab & Hmodel & Hpackage).
  split_and!; try (intros Heq; rewrite Heq in *; congruence);
    unfold OUTPUT_VOCAB, OUTPUT_MLMODEL, path_join; simpl.
  - apply (dirname_join_step _ _ 115); [|done..]. by apply last_join_step.
  - apply (dirname_join_step _ _ 101); [|done..]. by apply last_join_step.
  - etrans; [|by apply join_step_prefix].
    etrans; [|by apply join_step_prefix]. by apply join_step_prefix.
  - etrans; [|by apply join_step_prefix]. by apply join_step_prefix.
Qed.

(** ** The run *)

(** Every way a run can go, read off [main]. *)
Lemma export_run_cases w :
  run w =
    match trace w with
    | Raised e => (1%Z, opening w ++ tracing w ++ trace_failure e)
    | Returned _ =>
        match convert w with
        | Raised e =>
            (1%Z, opening w ++ tracing w ++ converting ++ conversion_failure e)
        | Returned output =>
            (0%Z, opening w ++ tracing w ++ converting ++ saving w output)
        end
    end.
Proof.
  unfold run, main. destruct (trace w) as [[]|e]; [|reflexivity].
  destruct (convert w) as [[|first output]|e]; reflexivity.
Qed.

(** X15: the vocabulary comes first. Every run starts by loading the
    tokenizer and the model, running the tokenizer on the test sentence,
    creating the vocabulary directory and writing the vocabulary file, in
    this order; tracing starts only after that, so that the file is written
    whether tracing and conversion succeed or not. *)
Theorem vocabulary_written_first w :
  ∃ rest,
    (run w).2 = opening w ++ tracing w ++ rest
    ∧ opening w !! 4%nat = Some (Makedirs (dirname (OUTPUT_VOCAB (file w))))
    ∧ opening w !! 5%nat
      = Some (WriteFile (OUTPUT_VOCAB (file w))
                (vocab_text (sorted_by_id (vocab w))))
    ∧ length (opening w) = 6%nat
    ∧ (JitTrace ∉ opening w)
    ∧ (∀ i c u t, Convert i c u t ∉ opening w ++ tracing w)
    ∧ last (tracing w) = Some JitTrace.
Proof.
  rewrite export_run_cases.
  exists (match trace w with
          | Raised e => trace_failure e
          | Returned _ =>
              match convert w with
              | Raised e => converting ++ conversion_failure e
              | Returned output => converting ++ saving w output
              end
          end).
  split_and!; try done.
  - by destruct (trace w) as [?|?]; [destruct (convert w)|].
  - unfold opening. rewrite !not_elem_of_cons. split_and!; try done.
    apply not_elem_of_nil.
  - intros i c u t. unfold opening, tracing. simpl.
    rewrite !not_elem_of_cons. split_and!; try done. apply not_elem_of_nil.
Qed.

(** X16: how a run ends. It exits with status 0 when tracing and conversion
    both return, having written the vocabulary file and then the model file,
    and with status 1 when either raises, having written the vocabulary file
    only and printed the exception's message. After a failed trace no
    conversion is attempted. The model is saved right after its directory is
    created, and nothing is ever written to the [.mlpackage] path. *)
Theorem export_outcomes w :
  (run w).1 = (match trace w, convert w with
               | Returned _, Returned _ => 0
               | _, _ => 1
               end)%Z
  ∧ written (run w).2 = (match trace w, convert w with
                         | Returned _, Returned _ =>
                             [OUTPUT_VOCAB (file w); OUTPUT_MLMODEL (file w)]
                         | _, _ => [OUTPUT_VOCAB (file w)]
                         end)
  ∧ (OUTPUT_MLPACKAGE (file w) ∉ written (run w).2)
  ∧ (∀ e, trace w = Raised e →
       PrintLine ([10060] ++ lit " JIT trace failed: " ++ e) ∈ (run w).2
       ∧ ∀ i c u t, Convert i c u t ∉ (run w).2)
  ∧ (∀ e, trace w = Returned () → convert w = Raised e →
       PrintLine ([10060] ++ lit " Core ML conversion failed: " ++ e) ∈ (run w).2)
  ∧ (∀ p, Save p ∈ (run w).2 →
       ∃ before after,
         (run w).2 = before ++ Makedirs (dirname p) :: Save p :: after).
Proof.
  destruct (output_path_last (file w)) as (Hvocab & Hmodel & Hpackage).
  assert (OUTPUT_MLPACKAGE (file w) ≠ OUTPUT_VOCAB (file w)) as Hpv.
  { intros Heq. rewrite Heq in *. congruence. }
  assert (OUTPUT_MLPACKAGE (file w) ≠ OUTPUT_MLMODEL (file w)) as Hpm.
  { intros Heq. rewrite Heq in *. congruence. }
  rewrite export_run_cases. split_and!.
  - by destruct (trace w) as [?|?]; [destruct (convert w)|].
  - by destruct (trace w) as [?|?]; [destruct (convert w)|].
  - destruct (trace w) as [?|?]; [destruct (convert w)|]; simpl;
      rewrite !not_elem_of_cons; split_and!; try done; apply not_elem_of_nil.
  - intros e ->. cbn [snd]. split.
    + rewrite !elem_of_app. right; right. left.
    + intros i c u t. unfold opening, tracing, trace_failure. simpl.
      rewrite !not_elem_of_cons. split_and!; try done. apply not_elem_of_nil.
  - intros e -> ->. cbn [snd]. rewrite !elem_of_app. right; right; right. left.
  - intros p Hp. destruct (trace w) as [?|?]; [destruct (convert w) as [out|?]|];
      cbn [snd] in Hp; rewrite !elem_of_app in Hp;
      unfold opening, tracing, converting, conversion_failure, trace_failure,
        saving in Hp;
      rewrite ?elem_of_cons, ?elem_of_nil in Hp;
      try (intuition congruence).
    assert (p = OUTPUT_MLMODEL (file w)) as -> by (intuition congruence).
    exists (opening w ++ tracing w ++ converting), (drop 2 (saving w out)).
    cbn [snd]. by rewrite <- !app_assoc.
Qed.

Lemma export_outcomes_witness :
  let w := World (lit "/repo/scripts/export_embedding_model.py")
             [(lit "a", 0%Z)] (Raised (lit "boom")) (Returned []) in
  (run w).1 = 1%Z
  ∧ written (run w).2
    = [lit "/repo/KnowledgeCache/Resources/minilm_vocab.txt"]
  ∧ PrintLine ([10060] ++ lit " JIT trace failed: boom") ∈ (run w).2.
Proof.
  intros w. destruct (export_outcomes w) as (Hcode & Hwritten & _ & Hfail & _).
  split_and!; [exact Hcode | by rewrite Hwritten |].
  exact (proj1 (Hfail (lit "boom") eq_refl)).
Defined.

End export_properties.
